(** * Study-Buddy: a shallow embedding of [mystudybuddy_mlv.py]

    The program reads a study text (pasted or decoded from a file), extracts
    entities, asks a generative model for one multiple-choice question per
    entity, runs a console quiz and prints a randomly sampled "knowledge
    graph".  This file embeds the five functions of the script together with
    the parts of the Python runtime they rely on (string methods, the
    [random] module, exceptions, console I/O) and proves properties of them.

    Conventions.
    - A Python [str] is a list of characters; a character is a code point in
      the range U+0000..U+00FF (type [ascii]).
    - External libraries (spaCy, transformers, python-docx, pdfplumber,
      python-pptx, PIL, pytesseract, the file system) are not part of the
      script: each call is a field of a record and its outcome, a value or a
      raised exception, is universally quantified in the theorems.
    - The exceptions of the model are the ones deriving from [Exception];
      interpreter signals such as KeyboardInterrupt are not modelled. *)

From Stdlib Require Import ZArith NArith Lia Ascii String.
From stdpp Require Import base tactics option list.

Set Default Proof Using "Type".

(** ** Python strings *)

Module Str.

Definition str := list ascii.

Definition lit (s : string) : str := list_ascii_of_string s.

Notation "« s »" := (lit s%string) (at level 0, s at level 0, format "« s »").

Global Instance ascii_eq_dec : EqDecision ascii := Ascii.ascii_dec.

Definition code (c : ascii) : N := N_of_ascii c.

(** [str.isspace] on one character: TAB..CR, FS..US, SPACE, NEL, NBSP. *)
Definition isspace (c : ascii) : bool :=
  let n := code c in
  ((9 <=? n) && (n <=? 13) || (28 <=? n) && (n <=? 31)
   || (n =? 32) || (n =? 133) || (n =? 160))%N.

(** [s.lstrip()], [s.rstrip()] and [s.strip()]. *)
Fixpoint lstrip (s : str) : str :=
  match s with
  | c :: s' => if isspace c then lstrip s' else s
  | [] => []
  end.

Definition rstrip (s : str) : str := reverse (lstrip (reverse s)).

Definition strip (s : str) : str := rstrip (lstrip s).

(** [prefix in s] at the head of [s] ([s.startswith(prefix)]). *)
Fixpoint startswith (prefix s : str) : bool :=
  match prefix, s with
  | [], _ => true
  | p :: prefix', c :: s' => bool_decide (p = c) && startswith prefix' s'
  | _ :: _, [] => false
  end.

(** [sub in s]. *)
Fixpoint contains (sub s : str) : bool :=
  match s with
  | [] => startswith sub []
  | _ :: s' => startswith sub s || contains sub s'
  end.

(** [s.split()]: the maximal runs of non-whitespace characters. *)
Fixpoint split_ws_from (cur s : str) : list str :=
  match s with
  | [] => match cur with [] => [] | _ => [cur] end
  | c :: s' =>
      if isspace c
      then match cur with [] => split_ws_from [] s' | _ => cur :: split_ws_from [] s' end
      else split_ws_from (cur ++ [c]) s'
  end.

Definition split_ws (s : str) : list str := split_ws_from [] s.

(** [s.split(sep)] for a non-empty [sep]: cut at each occurrence of [sep],
    scanning from the left; [skip] counts the characters of a matched
    separator that are still to be dropped. *)
Fixpoint split_from (sep : str) (skip : nat) (cur s : str) : list str :=
  match s with
  | [] => [cur]
  | c :: s' =>
      match skip with
      | S k => split_from sep k cur s'
      | 0 =>
          if startswith sep s
          then cur :: split_from sep (length sep - 1) [] s'
          else split_from sep 0 (cur ++ [c]) s'
      end
  end.

Definition split (sep s : str) : list str := split_from sep 0 [] s.

(** The line boundaries of [str.splitlines] below U+0100:
    LF, VT, FF, CR, FS, GS, RS and NEL; CR LF counts as one boundary. *)
Definition is_linebreak (c : ascii) : bool :=
  let n := code c in
  ((10 <=? n) && (n <=? 13) || (28 <=? n) && (n <=? 30) || (n =? 133))%N.

Fixpoint splitlines_from (after_cr : bool) (cur s : str) : list str :=
  match s with
  | [] => match cur with [] => [] | _ => [cur] end
  | c :: s' =>
      if (code c =? 10)%N && after_cr then splitlines_from false cur s'
      else if is_linebreak c then cur :: splitlines_from (code c =? 13)%N [] s'
      else splitlines_from false (cur ++ [c]) s'
  end.

Definition splitlines (s : str) : list str := splitlines_from false [] s.

(** [sep.join(parts)]. *)
Fixpoint join (sep : str) (parts : list str) : str :=
  match parts with
  | [] => []
  | [p] => p
  | p :: rest => p ++ sep ++ join sep rest
  end.

(** [str.lower]: A..Z and the capital letters U+00C0..U+00DE (without the
    multiplication sign U+00D7) move up by 32. *)
Definition lower_char (c : ascii) : ascii :=
  let n := code c in
  if ((65 <=? n) && (n <=? 90) || (192 <=? n) && (n <=? 222) && negb (n =? 215))%N
  then ascii_of_N (n + 32) else c.

Definition lower (s : str) : str := map lower_char s.

(** [str.upper]: a..z and the small letters U+00E0..U+00FE (without the
    division sign U+00F7) move down by 32 and U+00DF becomes "SS".  The
    upper-case forms of U+00B5 and U+00FF lie above U+00FF; these two
    characters are left as they are, which no comparison with an ASCII
    string can tell apart. *)
Definition upper_char (c : ascii) : str :=
  let n := code c in
  if ((97 <=? n) && (n <=? 122) || (224 <=? n) && (n <=? 254) && negb (n =? 247))%N
  then [ascii_of_N (n - 32)]
  else if (n =? 223)%N then « "SS" » else [c].

Definition upper (s : str) : str := concat (map upper_char s).

(** [s.rfind(c)] for a single character: the last index, or -1. *)
Fixpoint rfind_from (c : ascii) (s : str) (i found : Z) : Z :=
  match s with
  | [] => found
  | d :: s' => rfind_from c s' (i + 1) (if decide (d = c) then i else found)
  end.

Definition rfind (c : ascii) (s : str) : Z := rfind_from c s 0 (-1).

(** [os.path.splitext] of [posixpath]: the extension starts at the last
    dot of the last path component, unless that component consists of
    leading dots only up to there. *)
Definition splitext (p : str) : str * str :=
  let sepIndex := rfind "/" p in
  let dotIndex := rfind "." p in
  if (sepIndex <? dotIndex)%Z then
    let filenameIndex := Z.to_nat (sepIndex + 1) in
    let name := take (Z.to_nat dotIndex - filenameIndex) (drop filenameIndex p) in
    if existsb (fun c => negb (bool_decide (c = "."%char))) name
    then (take (Z.to_nat dotIndex) p, drop (Z.to_nat dotIndex) p)
    else (p, [])
  else (p, []).

End Str.
Import Str.

(** ** The Python runtime: exceptions, console, [random] *)

Inductive exn :=
| IndexError
| ValueError
| EOFError
| LibraryError (what : str).

Inductive outcome (A : Type) :=
| Ret (a : A)
| Raise (e : exn).
Arguments Ret {A} a.
Arguments Raise {A} e.

(** What the script writes to the console, one constructor per [print]
    statement or [input] prompt of the source. *)
Inductive event :=
| PrintModelsLoaded
| PrintModelLoadError (e : exn)
| PrintReadWarning (filepath : str) (e : exn)
| PrintBanner
| PromptChoice
| PromptPaste
| PromptPath
| PrintFileNotFound
| PrintNoText
| PrintInvalidChoice
| PrintGenerating
| PrintQuizStarted
| PrintQuestion (idx : nat) (question : str)
| PrintOption (opt : str)
| PromptAnswer
| PrintCorrect
| PrintIncorrect (answer : str)
| PrintFinished
| PrintGraphHeader
| PrintGraphEntry (k : str) (v : list str).

(** The state the script threads implicitly: the generator behind the
    [random] module, as the stream of its future draws, and the lines still
    to come on standard input. *)
Record state := State { rng : nat -> nat; stdin : list str }.

(** A computation writes events, ends in a value or an exception, and
    leaves a state. *)
Definition M (A : Type) : Type := state -> list event * outcome A * state.

Definition ret {A} (a : A) : M A := fun s => ([], Ret a, s).

Definition raise {A} (e : exn) : M A := fun s => ([], Raise e, s).

Definition bind {A B} (c : M A) (k : A -> M B) : M B :=
  fun s =>
    match c s with
    | (out, Ret a, s') => let '(out', r, s'') := k a s' in (out ++ out', r, s'')
    | (out, Raise e, s') => (out, Raise e, s')
    end.

Notation "'let*' x ':=' c 'in' k" := (bind c (fun x => k))
  (at level 10, x name, c at level 100, k at level 200).
Notation "'do' c 'then' k" := (bind c (fun _ => k))
  (at level 10, c at level 100, k at level 200).

(** [try: body  except: handler]. *)
Definition try_except {A} (body : M A) (handler : exn -> M A) : M A :=
  fun s =>
    match body s with
    | (out, Ret a, s') => (out, Ret a, s')
    | (out, Raise e, s') => let '(out', r, s'') := handler e s' in (out ++ out', r, s'')
    end.

Definition lift {A} (r : outcome A) : M A := fun s => ([], r, s).

Definition print (e : event) : M unit := fun s => ([e], Ret tt, s).

(** [input(prompt)]: writes the prompt, then takes the next line; at end of
    input it raises EOFError. *)
Definition input (prompt : event) : M str :=
  fun s =>
    match stdin s with
    | line :: rest => ([prompt], Ret line, State (rng s) rest)
    | [] => ([prompt], Raise EOFError, s)
    end.

Fixpoint mapM {A B} (f : A -> M B) (l : list A) : M (list B) :=
  match l with
  | [] => ret []
  | a :: l' => let* b := f a in let* bs := mapM f l' in ret (b :: bs)
  end.

(** Binding in [outcome], for the exception-only code of the libraries. *)
Definition obind {A B} (r : outcome A) (k : A -> outcome B) : outcome B :=
  match r with Ret a => k a | Raise e => Raise e end.

Fixpoint omapM {A B} (f : A -> outcome B) (l : list A) : outcome (list B) :=
  match l with
  | [] => Ret []
  | a :: l' => obind (f a) (fun b => obind (omapM f l') (fun bs => Ret (b :: bs)))
  end.

(** [l[i]] and [l.index(x)]. *)
Definition getitem {A} (l : list A) (i : nat) : outcome A :=
  match l !! i with Some a => Ret a | None => Raise IndexError end.

Fixpoint find_index (x : str) (l : list str) : option nat :=
  match l with
  | [] => None
  | y :: l' => if decide (y = x) then Some 0 else S <$> find_index x l'
  end.

Definition index (l : list str) (x : str) : outcome nat :=
  match find_index x l with Some i => Ret i | None => Raise ValueError end.

(** [list(dict.fromkeys(l))]: a dict keeps its keys in the order of their
    first insertion, and inserting a key again leaves its place alone. *)
Definition add_key (keys : list str) (k : str) : list str :=
  if decide (k ∈ keys) then keys else keys ++ [k].

Definition fromkeys (l : list str) : list str := fold_left add_key l [].

(** A dict as the list of its items in insertion order; [d[k] = v]. *)
Fixpoint setitem {V} (k : str) (v : V) (d : list (str * V)) : list (str * V) :=
  match d with
  | [] => [(k, v)]
  | (k', v') :: d' => if decide (k' = k) then (k, v) :: d' else (k', v') :: setitem k v d'
  end.

(** *** The [random] module

    [randbelow n] takes the next draw of the generator, reduced to
    [0 .. n-1].  [random.choice] and [random.shuffle] make their draws as
    the code of CPython does; [random.sample] is given by its contract,
    selection without replacement, with one draw per selected element. *)
Definition randbelow (n : nat) : M nat :=
  fun s => ([], Ret (rng s 0 mod n), State (fun i => rng s (S i)) (stdin s)).

(** [random.choice(seq)]: IndexError on an empty sequence. *)
Definition random_choice {A} (seq : list A) : M A :=
  match seq with
  | [] => raise IndexError
  | _ => let* j := randbelow (length seq) in lift (getitem seq j)
  end.

(** [random.sample(population, k)]: [k] elements at pairwise distinct
    positions; each one is drawn among the positions not taken yet.
    ValueError when the sample is larger than the population. *)
Fixpoint sample_from {A} (k : nat) (pool : list A) : M (list A) :=
  match k with
  | 0 => ret []
  | S k' =>
      let* j := randbelow (length pool) in
      let* x := lift (getitem pool j) in
      let* xs := sample_from k' (delete j pool) in
      ret (x :: xs)
  end.

Definition random_sample {A} (population : list A) (k : nat) : M (list A) :=
  if length population <? k then raise ValueError else sample_from k population.

(** [random.shuffle(x)]:
    [for i in reversed(range(1, len(x))): j = randbelow(i + 1); x[i], x[j] = x[j], x[i]]. *)
Definition swap {A} (i j : nat) (x : list A) : list A :=
  match x !! i, x !! j with
  | Some a, Some b => <[j := a]> (<[i := b]> x)
  | _, _ => x
  end.

Fixpoint shuffle_from {A} (i : nat) (x : list A) : M (list A) :=
  match i with
  | 0 => ret x
  | S i' => let* j := randbelow (S i) in shuffle_from i' (swap i j x)
  end.

Definition random_shuffle {A} (x : list A) : M (list A) :=
  shuffle_from (length x - 1) x.

(** ** The script *)

(** *** The external libraries and the two model handles *)

Definition Image := nat.

(** A page of a PDF: [page.extract_text()] (None, or a possibly empty
    text) and [page.to_image(resolution=200).original]. *)
Record Page := {
  extract_text : outcome (option str);
  to_image : outcome Image
}.

(** A shape of a slide: [None] when it has no attribute [text], otherwise
    what reading [shape.text] gives. *)
Definition Shape := option (outcome str).

Record World := {
  (* os.path.exists(path) *)
  path_exists : str -> bool;
  (* open(path, "r", encoding="utf-8", errors="ignore") and f.read() *)
  read_text : str -> outcome str;
  (* Document(path).paragraphs, each with its p.text *)
  docx_paragraphs : str -> outcome (list (outcome str));
  (* pdfplumber.open(path).pages *)
  pdf_pages : str -> outcome (list Page);
  (* Presentation(path).slides, each with its shapes *)
  pptx_slides : str -> outcome (list (list Shape));
  (* Image.open(path) *)
  image_open : str -> outcome Image;
  (* pytesseract.image_to_string(img) *)
  image_to_string : Image -> outcome str
}.

(** The module-level variables [nlp] and [text_generator]: [None], or the
    loaded pipeline as the function from its argument to what the call
    gives ([doc.ents] as the list of [ent.text]; [[0]["generated_text"]]). *)
Record Globals := {
  nlp : option (str -> outcome (list str));
  text_generator : option (str -> outcome str)
}.

(** Lines 14-21: both handles are set, or an exception of either load
    resets both. *)
Definition load_models (spacy_load : outcome (str -> outcome (list str)))
    (pipeline : outcome (str -> outcome str)) : M Globals :=
  try_except
    (let* n := lift spacy_load in
     let* g := lift pipeline in
     do print PrintModelsLoaded then
     ret {| nlp := Some n; text_generator := Some g |})
    (fun e =>
       do print (PrintModelLoadError e) then
       ret {| nlp := None; text_generator := None |}).

Definition nl : str := ["010"%char].

(** *** [extract_text_from_file] *)

(** The body of the loop over [pdf.pages]: the text of one page, by OCR
    when [extract_text] gives None or the empty string. *)
Definition page_text (w : World) (page : Page) : outcome str :=
  obind (extract_text page) (fun t =>
    match t with
    | Some (c :: t') => Ret (c :: t')
    | _ => obind (to_image page) (fun img => image_to_string w img)
    end).

(** The loop over the shapes of the slides: the texts of those that have
    one. *)
Fixpoint shapes_text (shapes : list Shape) : outcome (list str) :=
  match shapes with
  | [] => Ret []
  | None :: rest => shapes_text rest
  | Some t :: rest =>
      obind t (fun x => obind (shapes_text rest) (fun xs => Ret (x :: xs)))
  end.

(** The block under [try:]: the value of the variable [text] at its end.
    Every branch assigns [text] once, as its last statement; a [with]
    block is taken to release its handle without raising. *)
Definition decode (w : World) (ext filepath text : str) : outcome str :=
  if bool_decide (ext ∈ [« ".txt" »; « ".java" »]) then
    read_text w filepath
  else if bool_decide (ext = « ".docx" ») then
    obind (docx_paragraphs w filepath) (fun paragraphs =>
    obind (omapM (fun p => p) paragraphs) (fun texts =>
    Ret (join nl texts)))
  else if bool_decide (ext = « ".pdf" ») then
    obind (pdf_pages w filepath) (fun pdf_pages =>
    obind (omapM (page_text w) pdf_pages) (fun pages =>
    Ret (join nl pages)))
  else if bool_decide (ext = « ".pptx" ») then
    obind (pptx_slides w filepath) (fun slides =>
    obind (shapes_text (concat slides)) (fun slides_text =>
    Ret (join nl slides_text)))
  else if bool_decide (ext ∈ [« ".png" »; « ".jpg" »; « ".jpeg" »]) then
    obind (image_open w filepath) (fun img => image_to_string w img)
  else Ret text.

Definition extract_text_from_file (w : World) (filepath : str) : M str :=
  let ext := lower (splitext filepath).2 in
  let text := [] in
  let* text :=
    try_except (lift (decode w ext filepath text))
      (fun e => do print (PrintReadWarning filepath e) then ret text) in
  ret (strip text).

(** *** [extract_entities] *)

(** Lines 65-68. *)
Definition ner_entities (G : Globals) (text : str) : M (list str) :=
  match nlp G with
  | Some run => lift (run text)
  | None => ret []
  end.

(** Lines 69-71. *)
Definition long_words (text : str) : list str :=
  filter (fun w => 3 < length w) (split_ws text).

Definition pad_entities (entities : list str) (text : str) : M (list str) :=
  if length entities <? 5 then
    let words := long_words text in
    let* padding := random_sample words (min 10 (length words)) in
    ret (entities ++ padding)
  else ret entities.

Definition extract_entities (G : Globals) (text : str) : M (list str) :=
  let* entities := ner_entities G text in
  let* entities := pad_entities entities text in
  ret (fromkeys entities).

(** *** [generate_quiz_question] *)

Record Question := {
  question : str;
  options : list str;
  answer : str
}.

Definition placeholder (entity : str) : Question :=
  {| question := entity;
     options := [« "A) Yes" »; « "B) No" »; « "C) Maybe" »; « "D) N/A" »];
     answer := « "A" » |}.

Definition prompt (material entity : str) : str :=
  nl ++ « "Generate a meaningful multiple-choice question from this study material:" »
  ++ nl ++ « "Material: " » ++ material
  ++ nl ++ « "Focus on this entity: " » ++ entity
  ++ nl ++ « "Provide one correct answer and three plausible distractors." »
  ++ nl ++ « "Format:" »
  ++ nl ++ « "Question: ..." »
  ++ nl ++ « "Answer: ..." »
  ++ nl ++ « "Distractors: ..." » ++ nl.

(** [next((l.split(marker)[-1].strip() for l in lines if marker in l), default)]. *)
Definition field (marker : str) (lines : list str) (default : str) : str :=
  match filter (fun l => contains marker l) lines with
  | l :: _ => strip (List.last (split marker l) [])
  | [] => default
  end.

(** [[l.strip() for l in xs if l.strip()]]. *)
Definition stripped_nonempty (xs : list str) : list str :=
  map strip (filter (fun l => strip l ≠ []) xs).

(** The candidates of [random.choice] in the padding loop. *)
Definition other_words (material answer : str) : list str :=
  filter (fun w => lower w ≠ lower answer) (split_ws material).

(** [while len(distractors) < 3: distractors.append(random.choice(...))]. *)
Fixpoint pad_distractors (fuel : nat) (candidates distractors : list str)
    : M (list str) :=
  match fuel with
  | 0 => ret distractors
  | S fuel' =>
      if length distractors <? 3 then
        let* w := random_choice candidates in
        pad_distractors fuel' candidates (distractors ++ [w])
      else ret distractors
  end.

Definition letters : list str := [« "A" »; « "B" »; « "C" »; « "D" »].

(** The answer the function records on line 95. *)
Definition parsed_lines (gen : str) : list str := stripped_nonempty (splitlines gen).

Definition parsed_answer (gen entity : str) : str :=
  field « "Answer:" » (parsed_lines gen) entity.

(** The block under [try:], lines 92-108. *)
Definition quiz_body (generate : str -> outcome str) (entity material : str)
    : M Question :=
  let* gen := lift (generate (prompt material entity)) in
  let lines := parsed_lines gen in
  let question := field « "Question:" » lines entity in
  let answer := field « "Answer:" » lines entity in
  let distractors_line := field « "Distractors:" » lines [] in
  let distractors := stripped_nonempty (split « "," » distractors_line) in
  let* distractors := pad_distractors 3 (other_words material answer) distractors in
  let distractors := take 3 distractors in
  let* all_options := random_shuffle (answer :: distractors) in
  let* options :=
    lift (omapM (fun i =>
            obind (getitem letters i) (fun letter =>
            obind (getitem all_options i) (fun opt =>
            Ret (letter ++ « ") " » ++ opt))))
          (seq 0 4)) in
  let* i := lift (index all_options answer) in
  let* correct_letter := lift (getitem letters i) in
  ret {| question := question; options := options; answer := correct_letter |}.

Definition generate_quiz_question (G : Globals) (entity material : str)
    : M Question :=
  match text_generator G with
  | None => ret (placeholder entity)
  | Some generate =>
      try_except (quiz_body generate entity material)
        (fun _ => ret (placeholder entity))
  end.

(** *** [build_knowledge_graph] *)

Definition graph := list (str * list str).

(** The loop over [entities], with the entities still to visit; its body
    runs only for a non-empty list, where [len(entities) - 1] is not
    negative. *)
Fixpoint graph_from (entities todo : list str) (kg : graph) : M graph :=
  match todo with
  | [] => ret kg
  | ent :: rest =>
      let* related :=
        random_sample (filter (fun e => e ≠ ent) entities)
          (min 3 (length entities - 1)) in
      graph_from entities rest (setitem ent related kg)
  end.

Definition build_knowledge_graph (entities : list str) : M graph :=
  graph_from entities entities [].

(** *** [start_quiz] *)

(** Lines 147-156, [idx] counting from 1. *)
Fixpoint quiz_loop (idx : nat) (quiz_questions : list Question) : M unit :=
  match quiz_questions with
  | [] => ret tt
  | q :: rest =>
      do print (PrintQuestion idx (question q)) then
      let* _u := mapM (fun opt => print (PrintOption opt)) (options q) in
      let* line := input PromptAnswer in
      let ans := upper (strip line) in
      if bool_decide (ans = « "EXIT" ») then ret tt
      else
        do (if bool_decide (ans = answer q) then print PrintCorrect
            else print (PrintIncorrect (answer q))) then
        quiz_loop (S idx) rest
  end.

(** Lines 142-144. *)
Definition make_quiz (G : Globals) (text_data : str)
    : M (list str * graph * list Question) :=
  let* entities := extract_entities G text_data in
  let* knowledge_graph := build_knowledge_graph entities in
  let* quiz_questions :=
    mapM (fun ent => generate_quiz_question G ent text_data) (take 10 entities) in
  ret (entities, knowledge_graph, quiz_questions).

(** Lines 141-161. *)
Definition quiz_session (G : Globals) (text_data : str) : M unit :=
  do print PrintGenerating then
  let* quiz := make_quiz G text_data in
  let '(_, knowledge_graph, quiz_questions) := quiz in
  do print PrintQuizStarted then
  do quiz_loop 1 quiz_questions then
  do print PrintFinished then
  do print PrintGraphHeader then
  let* _u := mapM (fun kv => print (PrintGraphEntry kv.1 kv.2)) knowledge_graph in
  ret tt.

Definition start_quiz (G : Globals) (w : World) : M unit :=
  do print PrintBanner then
  let* choice := input PromptChoice in
  let choice := strip choice in
  if bool_decide (choice = « "1" ») then
    let* text_data := input PromptPaste in
    quiz_session G text_data
  else if bool_decide (choice = « "2" ») then
    let* filepath := input PromptPath in
    let filepath := strip filepath in
    if negb (path_exists w filepath) then print PrintFileNotFound
    else
      let* text_data := extract_text_from_file w filepath in
      match text_data with
      | [] => print PrintNoText
      | _ => quiz_session G text_data
      end
  else print PrintInvalidChoice.

(** ** Vocabulary of the properties *)

(** The extensions [extract_text_from_file] has a branch for, and the
    extension it dispatches on. *)
Definition supported_extensions : list str :=
  [« ".txt" »; « ".java" »; « ".docx" »; « ".pdf" »; « ".pptx" »;
   « ".png" »; « ".jpg" »; « ".jpeg" »].

Definition file_ext (filepath : str) : str := lower (splitext filepath).2.

(** Worlds and states for the examples: no file can be read; a PDF whose
    first page has text and whose second page cannot be decoded. *)
Definition no_library : World :=
  {| path_exists := fun _ => false;
     read_text := fun _ => Raise (LibraryError « "open" »);
     docx_paragraphs := fun _ => Raise (LibraryError « "docx" »);
     pdf_pages := fun _ => Raise (LibraryError « "pdfplumber" »);
     pptx_slides := fun _ => Raise (LibraryError « "pptx" »);
     image_open := fun _ => Raise (LibraryError « "PIL" »);
     image_to_string := fun _ => Raise (LibraryError « "tesseract" ») |}.

Definition broken_pdf : World :=
  {| path_exists := fun _ => true;
     read_text := fun _ => Raise (LibraryError « "open" »);
     docx_paragraphs := fun _ => Raise (LibraryError « "docx" »);
     pdf_pages := fun _ =>
       Ret [ {| extract_text := Ret (Some « "page one" »); to_image := Ret 0 |};
             {| extract_text := Raise (LibraryError « "page two" »); to_image := Ret 1 |} ];
     pptx_slides := fun _ => Raise (LibraryError « "pptx" »);
     image_open := fun _ => Raise (LibraryError « "PIL" »);
     image_to_string := fun _ => Raise (LibraryError « "tesseract" ») |}.

Definition state0 : state := State (fun i => i) [].

(** Sampling by explicit draws: the element at the drawn position of the
    pool is taken out, and the next draw addresses what is left. *)
Fixpoint pick_by {A} (draws : list nat) (pool : list A) : list A :=
  match draws with
  | [] => []
  | d :: draws' =>
      match pool !! d with
      | Some x => x :: pick_by draws' (delete d pool)
      | None => []
      end
  end.

(** Draws that fit a pool of [n] elements: the first is below [n], the
    second below [n - 1], and so on. *)
Fixpoint valid_draws (n : nat) (draws : list nat) : Prop :=
  match draws with
  | [] => True
  | d :: draws' => d < n /\ valid_draws (n - 1) draws'
  end.

(** The first [k] draws of the generator, each reduced to the size the
    pool has when it is taken. *)
Definition draws_of (g : nat -> nat) (n k : nat) : list nat :=
  map (fun i => g i mod (n - i)) (seq 0 k).

(** The state after [k] draws. *)
Definition drawn (k : nat) (s : state) : state :=
  State (fun i => rng s (k + i)) (stdin s).

(** [l] lists the distinct elements of [combined] in the order of their
    first occurrence there. *)
Definition first_seen_order (combined l : list str) : Prop :=
  NoDup l
  /\ (forall x, x ∈ l <-> x ∈ combined)
  /\ forall i j x y, l !! i = Some x -> l !! j = Some y -> i < j ->
       exists a b, find_index x combined = Some a
                   /\ find_index y combined = Some b /\ a < b.


(** What the NER stage hands to the padding stage: nothing when the
    pipeline is not loaded, otherwise what the call returned. *)
Definition ner_yields (G : Globals) (text : str) (ents : list str) : Prop :=
  (nlp G = None /\ ents = [])
  \/ (exists run, nlp G = Some run /\ run text = Ret ents).

Definition no_models : Globals := {| nlp := None; text_generator := None |}.

(** The pieces [generate_quiz_question] parses out of the generated
    text. *)
Definition parsed_question (gen entity : str) : str :=
  field « "Question:" » (parsed_lines gen) entity.

Definition parsed_distractors (gen : str) : list str :=
  stripped_nonempty (split « "," » (field « "Distractors:" » (parsed_lines gen) [])).

(** The four option lines for four option texts. *)
Definition labelled (texts : list str) : list str :=
  zip_with (fun letter text => letter ++ « ") " » ++ text) letters texts.

(** A question with four labelled options whose answer letter labels one
    option, the one at position [i] with text [correct]. *)
Definition well_formed (q : Question) (i : nat) (correct : str) : Prop :=
  exists t0 t1 t2 t3,
    options q = [« "A) " » ++ t0; « "B) " » ++ t1; « "C) " » ++ t2; « "D) " » ++ t3]
    /\ letters !! i = Some (answer q)
    /\ [t0; t1; t2; t3] !! i = Some correct
    /\ List.filter (startswith (answer q ++ « ") " »)) (options q)
       = [answer q ++ « ") " » ++ correct].

(** A generated text in which none of the three markers occurs. *)
Definition lacks_markers (gen : str) : Prop :=
  contains « "Question:" » gen = false
  /\ contains « "Answer:" » gen = false
  /\ contains « "Distractors:" » gen = false.

(** Both models loaded: the NER pipeline finds nothing and the generator
    answers without any marker. *)
Definition chatty_model : Globals :=
  {| nlp := Some (fun _ => Ret []);
     text_generator := Some (fun _ => Ret « "hello" ») |}.

(** Both models loaded, and every call of either fails. *)
Definition failing_models : Globals :=
  {| nlp := Some (fun _ => Raise ValueError);
     text_generator := Some (fun _ => Raise (LibraryError « "generate" »)) |}.

(** The numbers of the questions a run has put on the console. *)
Definition shown_questions (out : list event) : list nat :=
  omap (fun e => match e with PrintQuestion idx _ => Some idx | _ => None end) out.

(** A console answer that is "exit" up to case and surrounding
    whitespace. *)
Definition is_exit_sentinel (line : str) : Prop :=
  exists pre core post,
    line = pre ++ core ++ post
    /\ Forall (fun c => isspace c = true) pre
    /\ Forall (fun c => isspace c = true) post
    /\ lower core = « "exit" ».

(** What one round of the quiz loop prints before it reads the answer. *)
Definition round_output (idx : nat) (q : Question) : list event :=
  PrintQuestion idx (question q) :: map PrintOption (options q) ++ [PromptAnswer].

(** A computation that writes nothing to the console, and one that shows
    at most [n] questions. *)
Definition silent {A} (c : M A) : Prop := forall s, (c s).1.1 = [].


(** [line] is [expected] up to the case of its letters and surrounding
    whitespace. *)
Definition matches_ignoring_case_and_space (line expected : str) : Prop :=
  exists pre core post,
    line = pre ++ core ++ post
    /\ Forall (fun c => isspace c = true) pre
    /\ Forall (fun c => isspace c = true) post
    /\ lower core = lower expected.

(** The capital letters A..Z without S, the one capital letter that is also
    the upper-case form of another character (U+00DF). *)
Definition plain_capital (d : ascii) : bool :=
  let n := code d in ((65 <=? n) && (n <=? 90) && negb (n =? 83))%N.


Definition sentinel : str := « "EXIT" ».

(** The lines of the knowledge graph as [start_quiz] prints them. *)
Definition graph_output (kg : graph) : list event :=
  map (fun kv => PrintGraphEntry kv.1 kv.2) kg.

(** The entity [ent] leaves enough other entries in [entities] for the
    sample [build_knowledge_graph] takes for it. *)
Definition enough_others (entities : list str) (ent : str) : Prop :=
  min 3 (length entities - 1) <= length (filter (fun e => e <> ent) entities).

(** A generated text in the format the prompt asks for. *)
Definition response (q a : str) (ds : list str) : str :=
  « "Question: " » ++ q ++ nl ++ « "Answer: " » ++ a ++ nl
  ++ « "Distractors: " » ++ join « ", " » ds.

(** A field value the format can carry: not empty, on one line, without
    leading or trailing whitespace, and free of the three markers. *)
Definition plain_value (x : str) : Prop :=
  x <> []
  /\ strip x = x
  /\ Forall (fun c => is_linebreak c = false) x
  /\ contains « "Question:" » x = false
  /\ contains « "Answer:" » x = false
  /\ contains « "Distractors:" » x = false.

(** A distractor is a plain value without a comma. *)
Definition plain_item (x : str) : Prop :=
  plain_value x /\ ","%char ∉ x.

(** A loaded generator that always answers in the requested format. *)
Definition geography_model : Globals :=
  {| nlp := Some (fun _ => Ret []);
     text_generator := Some (fun _ =>
       Ret (response « "What is the capital of France?" » « "Paris" »
              [« "Lyon" »; « "Nice" »; « "Lille" »; « "Brest" »])) |}.

(** The text [t] one page of a PDF contributes: its text layer when there
    is a non-empty one, otherwise what OCR reads on its image. *)
Definition page_decodes (w : World) (page : Page) (t : str) : Prop :=
  (extract_text page = Ret (Some t) /\ t <> [])
  \/ ((extract_text page = Ret None \/ extract_text page = Ret (Some []))
      /\ exists img, to_image page = Ret img /\ image_to_string w img = Ret t).

(** The texts of the shapes that have one. *)
Definition shape_texts (shapes : list Shape) : list str :=
  omap (fun sh => match sh with Some (Ret t) => Some t | _ => None end) shapes.

(** A computation that reads nothing from standard input. *)
Definition keeps_stdin {A} (c : M A) : Prop := forall s, stdin (c s).2 = stdin s.

(** * Properties *)

Example strip_ex : strip « "  ab c  " » = « "ab c" ».
Proof. vm_compute. reflexivity. Qed.

Example split_ws_ex : split_ws « " ab  c d " » = [« "ab" »; « "c" »; « "d" »].
Proof. vm_compute. reflexivity. Qed.
Example split_ex : split « "ab" » « "xabyab" » = [« "x" »; « "y" »; []].
Proof. vm_compute. reflexivity. Qed.
Example splitext_ex : splitext « "/a.b/.bashrc" » = (« "/a.b/.bashrc" », []).
Proof. vm_compute. reflexivity. Qed.
Example splitext_ex2 : splitext « "/a.b/x.tar.GZ" » = (« "/a.b/x.tar" », « ".GZ" »).
Proof. vm_compute. reflexivity. Qed.
Example upper_ex : upper « "eXit" » = « "EXIT" ».
Proof. vm_compute. reflexivity. Qed.
(** ** Strings *)

Lemma lstrip_spaces (l s : str) :
  Forall (fun c => isspace c = true) l -> lstrip (l ++ s) = lstrip s.
Proof.
  induction 1 as [|c l Hc _ IH]; [done|]. simpl. by rewrite Hc.
Qed.

Lemma lstrip_nonspace (c : ascii) (s : str) :
  isspace c = false -> lstrip (c :: s) = c :: s.
Proof. intros Hc. simpl. by rewrite Hc. Qed.

Lemma lstrip_head (s : str) (c : ascii) :
  head (lstrip s) = Some c -> isspace c = false.
Proof.
  induction s as [|d s IH]; simpl; [done|].
  destruct (isspace d) eqn:Hd; [done|]. simpl. by intros [= <-].
Qed.

Lemma lstrip_suffix (s : str) : exists l, s = l ++ lstrip s.
Proof.
  induction s as [|d s [l IH]]; simpl.
  - by exists [].
  - destruct (isspace d); [|by exists []].
    exists (d :: l). simpl. by rewrite <- IH.
Qed.

Lemma rstrip_prefix (s : str) : exists r, s = rstrip s ++ r.
Proof.
  unfold rstrip. destruct (lstrip_suffix (reverse s)) as [l Hl].
  exists (reverse l). rewrite <- reverse_app, <- Hl. by rewrite reverse_involutive.
Qed.

Lemma rstrip_last (s : str) (c : ascii) :
  last (rstrip s) = Some c -> isspace c = false.
Proof.
  unfold rstrip. rewrite last_reverse. apply lstrip_head.
Qed.

Lemma strip_head (s : str) (c : ascii) :
  head (strip s) = Some c -> isspace c = false.
Proof.
  unfold strip. intros Hc. apply (lstrip_head s).
  destruct (rstrip_prefix (lstrip s)) as [r Hr]. rewrite Hr.
  destruct (rstrip (lstrip s)); [done|]. done.
Qed.

Lemma strip_last (s : str) (c : ascii) :
  last (strip s) = Some c -> isspace c = false.
Proof. apply rstrip_last. Qed.

Lemma strip_nil : strip [] = [].
Proof. reflexivity. Qed.

(** [split_ws] cuts a text into its non-empty runs of characters that are
    not whitespace, and loses nothing else. *)
Lemma split_ws_from_tokens (cur s : str) :
  Forall (fun c => isspace c = false) cur ->
  Forall (fun w => w <> [] /\ Forall (fun c => isspace c = false) w)
    (split_ws_from cur s).
Proof.
  revert cur. induction s as [|c s IH]; intros cur Hcur; simpl.
  - destruct cur; [constructor|]. constructor; [done|constructor].
  - destruct (isspace c) eqn:Hc.
    + destruct cur; [by apply IH|]. constructor; [done|by apply IH].
    + apply IH. apply Forall_app. by repeat constructor.
Qed.

Lemma split_ws_from_concat (cur s : str) :
  concat (split_ws_from cur s) = cur ++ filter (fun c => isspace c = false) s.
Proof.
  unfold str in *.
  revert cur. induction s as [|c s IH]; intros cur; cbn [split_ws_from].
  - destruct cur; [done|]. simpl. by rewrite !app_nil_r.
  - destruct (isspace c) eqn:Hc.
    + rewrite filter_cons_False by (by rewrite Hc).
      destruct cur; cbn [concat]; by rewrite IH.
    + rewrite filter_cons_True by done. by rewrite IH, <- app_assoc.
Qed.

Lemma split_ws_tokens (s : str) :
  Forall (fun w => w <> [] /\ Forall (fun c => isspace c = false) w) (split_ws s)
  /\ concat (split_ws s) = filter (fun c => isspace c = false) s.
Proof.
  split; [by apply split_ws_from_tokens | apply split_ws_from_concat].
Qed.

(** ** [extract_text_from_file] *)

Lemma extract_text_from_file_eq (w : World) (filepath : str) (s : state) :
  extract_text_from_file w filepath s =
  match decode w (file_ext filepath) filepath [] with
  | Ret t => ([], Ret (strip t), s)
  | Raise e => ([PrintReadWarning filepath e], Ret [], s)
  end.
Proof.
  unfold extract_text_from_file, file_ext, bind, try_except, lift.
  by destruct (decode _ _ _ _).
Qed.

Lemma decode_unsupported (w : World) (ext filepath text : str) :
  ext ∉ supported_extensions -> decode w ext filepath text = Ret text.
Proof.
  intros Hext. unfold decode.
  repeat case_bool_decide; try done; exfalso; apply Hext;
    repeat match goal with
    | H : _ ∈ _ :: _ |- _ => apply elem_of_cons in H as [->|H]
    | H : _ ∈ [] |- _ => by apply elem_of_nil in H
    | H : ext = _ |- _ => rewrite H
    end; unfold supported_extensions; by repeat constructor.
Qed.

Lemma omapM_raise {A B} (f : A -> outcome B) (l : list A) (i : nat) (a : A) (e : exn) :
  l !! i = Some a -> f a = Raise e -> exists e', omapM f l = Raise e'.
Proof.
  revert i. induction l as [|b l IH]; intros [|i] Hi Hf; simplify_eq/=.
  - rewrite Hf. by eexists.
  - destruct (f b); simpl; [|by eexists].
    destruct (IH i Hi Hf) as [e' ->]. by eexists.
Qed.

Lemma shapes_text_raise (shapes : list Shape) (i : nat) (e : exn) :
  shapes !! i = Some (Some (Raise e)) -> exists e', shapes_text shapes = Raise e'.
Proof.
  revert i. induction shapes as [|b l IH]; intros [|i] Hi; simplify_eq/=.
  - by eexists.
  - destruct b as [[x|e1]|]; simpl; eauto.
    destruct (IH i Hi) as [e' ->]. by eexists.
Qed.

(** C3: [extract_text_from_file] never raises.  When the block under [try]
    fails, at whatever point, the warning is printed and the result is the
    empty string; in particular a failure at any page of a PDF, paragraph
    of a Word document or shape of a slide deck discards what was decoded
    before it. *)
Theorem extract_text_never_raises_no_partial (w : World) (filepath : str) (s : state) :
  exists out text,
    extract_text_from_file w filepath s = (out, Ret text, s)
    /\ (forall e, decode w (file_ext filepath) filepath [] = Raise e ->
          out = [PrintReadWarning filepath e] /\ text = [])
    /\ (forall pages i page e,
          file_ext filepath = « ".pdf" » ->
          pdf_pages w filepath = Ret pages ->
          pages !! i = Some page -> page_text w page = Raise e ->
          text = [] /\ exists e', out = [PrintReadWarning filepath e'])
    /\ (forall paragraphs i e,
          file_ext filepath = « ".docx" » ->
          docx_paragraphs w filepath = Ret paragraphs ->
          paragraphs !! i = Some (Raise e) ->
          text = [] /\ exists e', out = [PrintReadWarning filepath e'])
    /\ (forall slides i e,
          file_ext filepath = « ".pptx" » ->
          pptx_slides w filepath = Ret slides ->
          concat slides !! i = Some (Some (Raise e)) ->
          text = [] /\ exists e', out = [PrintReadWarning filepath e']).
Proof.
  rewrite extract_text_from_file_eq.
  destruct (decode w (file_ext filepath) filepath []) as [t|e0] eqn:Hd.
  - exists [], (strip t). split; [done|]. split; [done|].
    unfold decode in Hd. split; [|split].
    + intros pages i page e Hext Hp Hi He. exfalso.
      rewrite Hext, Hp in Hd.
      destruct (omapM_raise _ _ _ _ _ Hi He) as [e' He'].
      revert Hd. vm_compute bool_decide. simpl. by rewrite He'.
    + intros paragraphs i e Hext Hp Hi. exfalso.
      rewrite Hext, Hp in Hd.
      destruct (omapM_raise (fun p => p) _ _ _ _ Hi eq_refl) as [e' He'].
      revert Hd. vm_compute bool_decide. simpl. by rewrite He'.
    + intros slides i e Hext Hp Hi. exfalso.
      rewrite Hext, Hp in Hd.
      destruct (shapes_text_raise _ _ _ Hi) as [e' He'].
      revert Hd. vm_compute bool_decide. simpl. by rewrite He'.
  - exists [PrintReadWarning filepath e0], []. split; [done|].
    split; [by intros e [= ->]|]. repeat split; eauto.
Qed.

Lemma extract_text_never_raises_no_partial_witness :
  exists out,
    extract_text_from_file broken_pdf « "notes.PDF" » state0 = (out, Ret [], state0)
    /\ exists e', out = [PrintReadWarning « "notes.PDF" » e'].
Proof.
  destruct (extract_text_never_raises_no_partial broken_pdf « "notes.PDF" » state0)
    as (out & text & Hrun & _ & Hpdf & _).
  destruct (Hpdf _ 1 _ (LibraryError « "page two" ») eq_refl eq_refl eq_refl eq_refl)
    as [-> He].
  exists out. split; [exact Hrun | exact He].
Defined.

(** C10: a path whose lower-cased extension has no branch gives the empty
    string and prints nothing; and whatever the path, the function returns
    a string that neither starts nor ends with a whitespace character. *)
Theorem extract_text_unsupported_silent_and_stripped
    (w : World) (filepath : str) (s : state) :
  (file_ext filepath ∉ supported_extensions ->
     extract_text_from_file w filepath s = ([], Ret [], s))
  /\ exists out text,
       extract_text_from_file w filepath s = (out, Ret text, s)
       /\ (forall c, head text = Some c -> isspace c = false)
       /\ (forall c, last text = Some c -> isspace c = false).
Proof.
  rewrite extract_text_from_file_eq. split.
  - intros Hext. by rewrite decode_unsupported.
  - destruct (decode _ _ _ _) as [t|e].
    + exists [], (strip t). split; [done|]. split; [apply strip_head | apply strip_last].
    + exists [PrintReadWarning filepath e], []. by repeat split.
Qed.

Lemma extract_text_unsupported_silent_and_stripped_witness :
  (file_ext « "/home/me/notes.tar.MD" » ∉ supported_extensions)
  /\ extract_text_from_file no_library « "/home/me/notes.tar.MD" » state0
     = ([], Ret [], state0).
Proof.
  assert (file_ext « "/home/me/notes.tar.MD" » ∉ supported_extensions) as H.
  { apply (bool_decide_unpack _). vm_compute. exact I. }
  split; [exact H|].
  exact (proj1 (extract_text_unsupported_silent_and_stripped
                  no_library « "/home/me/notes.tar.MD" » state0) H).
Defined.

(** ** The [random] module *)

Lemma draws_of_S (g : nat -> nat) (n k : nat) :
  draws_of g n (S k) = g 0 mod n :: draws_of (fun i => g (S i)) (n - 1) k.
Proof.
  unfold draws_of. simpl. rewrite Nat.sub_0_r. f_equal.
  rewrite <- fmap_S_seq, <- list_fmap_compose.
  apply list_fmap_ext. intros _ i _. simpl. f_equal. lia.
Qed.

Lemma draws_of_length (g : nat -> nat) (n k : nat) : length (draws_of g n k) = k.
Proof. unfold draws_of. by rewrite length_map, length_seq. Qed.

Lemma draws_of_valid (g : nat -> nat) (n k : nat) :
  k <= n -> valid_draws n (draws_of g n k).
Proof.
  revert g n. induction k as [|k IH]; intros g n Hk; [done|].
  rewrite draws_of_S. split.
  - apply Nat.mod_upper_bound. lia.
  - apply IH. lia.
Qed.

Lemma sample_from_eq {A} (k : nat) (pool : list A) (s : state) :
  k <= length pool ->
  sample_from k pool s =
  ([], Ret (pick_by (draws_of (rng s) (length pool) k) pool), drawn k s).
Proof.
  revert pool s. induction k as [|k IH]; intros pool s Hk.
  - by destruct s.
  - rewrite draws_of_S. cbn [sample_from pick_by].
    assert (rng s 0 mod length pool < length pool) as Hj
      by (apply Nat.mod_upper_bound; lia).
    destruct (lookup_lt_is_Some_2 pool _ Hj) as [x Hx].
    unfold bind at 1. cbn [randbelow].
    unfold bind at 1. unfold lift, getitem. rewrite Hx.
    unfold bind at 1. rewrite IH by (rewrite length_delete by eauto; lia).
    rewrite length_delete by eauto. reflexivity.
Qed.

Lemma random_sample_eq {A} (population : list A) (k : nat) (s : state) :
  k <= length population ->
  random_sample population k s =
  ([], Ret (pick_by (draws_of (rng s) (length population) k) population), drawn k s).
Proof.
  intros Hk. unfold random_sample.
  destruct (length population <? k) eqn:Hlt; [apply Nat.ltb_lt in Hlt; lia|].
  by apply sample_from_eq.
Qed.

Lemma pick_by_length {A} (draws : list nat) (pool : list A) :
  valid_draws (length pool) draws -> length (pick_by draws pool) = length draws.
Proof.
  revert pool. induction draws as [|d draws IH]; intros pool Hv; [done|].
  destruct Hv as [Hd Hv]. simpl.
  destruct (lookup_lt_is_Some_2 pool d Hd) as [x Hx]. rewrite Hx. simpl.
  f_equal. apply IH. rewrite length_delete by eauto. done.
Qed.




Lemma pick_by_elem_of {A} (draws : list nat) (pool : list A) (x : A) :
  x ∈ pick_by draws pool -> x ∈ pool.
Proof.
  revert pool. induction draws as [|d draws IH]; intros pool; simpl.
  - by intros ?%elem_of_nil.
  - destruct (pool !! d) as [y|] eqn:Hy; [|by intros ?%elem_of_nil].
    intros [->|Hin]%elem_of_cons.
    + by eapply list_elem_of_lookup_2.
    + apply IH in Hin. eapply elem_of_sublist; [exact Hin|]. apply sublist_delete.
Qed.





(** ** [list.index] and [dict.fromkeys] *)

Lemma find_index_Some (x : str) (l : list str) (i : nat) :
  find_index x l = Some i ->
  l !! i = Some x /\ forall j, j < i -> l !! j <> Some x.
Proof.
  revert i. induction l as [|y l IH]; intros i; simpl; [done|].
  destruct (decide (y = x)) as [->|Hne].
  - intros [= <-]. split; [done|]. lia.
  - destruct (find_index x l) as [i'|]; [|done]. intros [= <-].
    destruct (IH i' eq_refl) as [Hi Hmin]. split; [done|].
    intros [|j] Hj; simpl; [congruence|]. apply Hmin. lia.
Qed.

Lemma find_index_elem_of (x : str) (l : list str) :
  x ∈ l -> exists i, find_index x l = Some i.
Proof.
  induction l as [|y l IH]; [by intros ?%elem_of_nil|].
  intros Hin. simpl. destruct (decide (y = x)) as [->|Hne]; [by eexists|].
  apply elem_of_cons in Hin as [->|Hin]; [done|].
  destruct (IH Hin) as [i ->]. by eexists.
Qed.

Lemma find_index_app_l (x : str) (l1 l2 : list str) :
  x ∈ l1 -> find_index x (l1 ++ l2) = find_index x l1.
Proof.
  induction l1 as [|y l1 IH]; [by intros ?%elem_of_nil|].
  intros Hin. simpl. destruct (decide (y = x)) as [->|Hne]; [done|].
  apply elem_of_cons in Hin as [->|Hin]; [done|]. by rewrite IH.
Qed.

Lemma find_index_app_r (x : str) (l1 l2 : list str) :
  x ∉ l1 -> find_index x (l1 ++ l2) = (fun i => length l1 + i) <$> find_index x l2.
Proof.
  induction l1 as [|y l1 IH]; intros Hnot; simpl.
  - by destruct (find_index x l2).
  - apply not_elem_of_cons in Hnot as [Hne Hnot].
    destruct (decide (y = x)) as [->|_]; [done|].
    rewrite IH by done. by destruct (find_index x l2).
Qed.

Lemma find_index_lt (x : str) (l : list str) (i : nat) :
  find_index x l = Some i -> i < length l.
Proof. intros [Hi _]%find_index_Some. by eapply lookup_lt_Some. Qed.

Lemma find_index_NoDup (x : str) (l : list str) (i : nat) :
  NoDup l -> l !! i = Some x -> find_index x l = Some i.
Proof.
  intros Hnd Hi.
  destruct (find_index_elem_of x l) as [j Hj]; [by eapply list_elem_of_lookup_2|].
  rewrite Hj. f_equal. apply find_index_Some in Hj as [Hj _].
  by eapply NoDup_lookup.
Qed.

Lemma fromkeys_from (l acc : list str) :
  NoDup acc ->
  first_seen_order (acc ++ l) (fold_left add_key l acc).
Proof.
  revert acc. induction l as [|k l IH]; intros acc Hnd.
  - rewrite app_nil_r. simpl. split; [done|]. split; [done|].
    intros i j x y Hi Hj Hij. exists i, j. eauto using find_index_NoDup.
  - simpl. unfold add_key at 2. destruct (decide (k ∈ acc)) as [Hk|Hk].
    + destruct (IH acc Hnd) as (Hnd' & Hel & Hord). split; [done|]. split.
      * intros x. rewrite Hel, !elem_of_app, elem_of_cons.
        split; [tauto|]. intros [?|[->|?]]; tauto.
      * intros i j x y Hi Hj Hij.
        destruct (Hord i j x y Hi Hj Hij) as (a & b & Ha & Hb & Hab).
        assert (forall z c, find_index z (acc ++ l) = Some c ->
                  (z ∈ acc /\ c < length acc /\ find_index z (acc ++ k :: l) = Some c)
                  \/ ((z ∉ acc) /\ length acc <= c
                      /\ find_index z (acc ++ k :: l) = Some (S c))) as Hcase.
        { intros z c Hc. destruct (decide (z ∈ acc)) as [Hz|Hz].
          - left. rewrite find_index_app_l in Hc |- * by done.
            eauto using find_index_lt.
          - right. rewrite find_index_app_r in Hc |- * by done.
            simpl. destruct (decide (k = z)) as [->|_]; [done|].
            destruct (find_index z l) as [c'|]; simplify_eq/=.
            split; [done|]. split; [lia|]. f_equal. lia. }
        destruct (Hcase x a Ha) as [(_ & Ha1 & Ha2)|(_ & Ha1 & Ha2)],
                 (Hcase y b Hb) as [(_ & Hb1 & Hb2)|(_ & Hb1 & Hb2)];
          eexists _, _; (split; [exact Ha2|]); (split; [exact Hb2|]); lia.
    + rewrite (cons_middle k acc l), app_assoc. apply IH.
      apply NoDup_app. split; [done|]. split; [|apply NoDup_singleton].
      intros x Hx ->%list_elem_of_singleton. done.
Qed.

Lemma fromkeys_first_seen (l : list str) : first_seen_order l (fromkeys l).
Proof. apply (fromkeys_from l []). constructor. Qed.

(** ** [extract_entities] *)

Lemma ner_entities_eq (G : Globals) (text : str) (ents : list str) (s : state) :
  ner_yields G text ents -> ner_entities G text s = ([], Ret ents, s).
Proof.
  unfold ner_entities. intros [[-> ->]|(run & -> & Hrun)]; [done|].
  unfold lift. by rewrite Hrun.
Qed.

Lemma pad_entities_eq (entities : list str) (text : str) (s : state) :
  let words := long_words text in
  let m := min 10 (length words) in
  pad_entities entities text s =
  if length entities <? 5
  then ([], Ret (entities ++ pick_by (draws_of (rng s) (length words) m) words),
        drawn m s)
  else ([], Ret entities, s).
Proof.
  intros words m. unfold pad_entities. destruct (length entities <? 5); [|done].
  unfold bind. fold words. fold m. rewrite random_sample_eq by (unfold m; lia).
  done.
Qed.

Lemma extract_entities_eq (G : Globals) (text : str) (ents : list str) (s : state) :
  ner_yields G text ents ->
  exists combined s',
    pad_entities ents text s = ([], Ret combined, s')
    /\ extract_entities G text s = ([], Ret (fromkeys combined), s').
Proof.
  intros Hner. unfold extract_entities, bind at 1.
  rewrite (ner_entities_eq _ _ _ _ Hner). unfold bind at 1.
  rewrite pad_entities_eq. destruct (length ents <? 5); eauto.
Qed.

(** C4: when the NER call does not fail, [extract_entities] returns a list
    without duplicates that holds the entities of the NER results followed
    by the padding, each once, in the order of their first occurrence
    there.  (A failing NER call makes the function raise.) *)
Theorem extract_entities_dedup_first_seen (G : Globals) (text : str) (s : state) :
  (forall run e, nlp G = Some run -> run text = Raise e ->
     extract_entities G text s = ([], Raise e, s))
  /\ (forall ents, ner_yields G text ents ->
        exists combined result s',
          pad_entities ents text s = ([], Ret combined, s')
          /\ extract_entities G text s = ([], Ret result, s')
          /\ first_seen_order combined result).
Proof.
  split.
  - intros run e Hnlp Hrun. unfold extract_entities, bind, ner_entities, lift.
    by rewrite Hnlp, Hrun.
  - intros ents Hner.
    destruct (extract_entities_eq G text ents s Hner) as (combined & s' & Hpad & Hrun).
    exists combined, (fromkeys combined), s'.
    split; [done|]. split; [done|]. apply fromkeys_first_seen.
Qed.

Lemma extract_entities_dedup_first_seen_witness :
  exists combined result s',
    pad_entities [] « "alpha beta alpha gamma to beta" » state0 = ([], Ret combined, s')
    /\ extract_entities no_models « "alpha beta alpha gamma to beta" » state0
       = ([], Ret result, s')
    /\ first_seen_order combined result.
Proof.
  apply (proj2 (extract_entities_dedup_first_seen no_models
                  « "alpha beta alpha gamma to beta" » state0) []).
  left. split; reflexivity.
Defined.



(** ** [build_knowledge_graph] *)

Lemma setitem_fresh {V} (k : str) (v : V) (d : list (str * V)) :
  k ∉ d.*1 -> setitem k v d = d ++ [(k, v)].
Proof.
  induction d as [|[k' v'] d IH]; intros Hk; simpl; [done|].
  simpl in Hk. apply not_elem_of_cons in Hk as [Hne Hk].
  destruct (decide (k' = k)) as [->|_]; [done|]. by rewrite IH.
Qed.

Lemma filter_ne_absent (ent : str) (l : list str) :
  ent ∉ l -> filter (fun e => e <> ent) l = l.
Proof.
  induction l as [|x l IH]; intros Hnot; [done|].
  apply not_elem_of_cons in Hnot as [Hne Hnot].
  rewrite filter_cons_True by done. by rewrite IH.
Qed.

Lemma filter_ne_length (ent : str) (l : list str) :
  NoDup l -> ent ∈ l -> length (filter (fun e => e <> ent) l) = length l - 1.
Proof.
  intros Hnd Hin. apply list_elem_of_split in Hin as (l1 & l2 & ->).
  apply NoDup_app in Hnd as (_ & H1 & [H2 _]%NoDup_cons).
  rewrite filter_app, filter_cons_False by (intros H; by apply H).
  rewrite !filter_ne_absent; [|done|].
  - rewrite !length_app. simpl. lia.
  - intros Hin. apply (H1 ent Hin). by left.
Qed.

(** What one iteration stores under the key [ent]. *)
Lemma related_sample (entities : list str) (ent : str) (s : state) :
  NoDup entities -> ent ∈ entities ->
  exists related,
    random_sample (filter (fun e => e <> ent) entities)
      (min 3 (length entities - 1)) s
    = ([], Ret related, drawn (min 3 (length entities - 1)) s)
    /\ length related = min 3 (length entities - 1)
    /\ Forall (fun x => x <> ent /\ x ∈ entities) related.
Proof.
  intros Hnd Hin.
  pose proof (filter_ne_length ent entities Hnd Hin) as Hlen.
  eexists. split; [apply random_sample_eq; lia|]. split.
  - rewrite pick_by_length; [apply draws_of_length|].
    apply draws_of_valid. lia.
  - apply Forall_forall. intros x Hx%pick_by_elem_of.
    apply list_elem_of_filter in Hx. tauto.
Qed.

Lemma graph_from_spec (entities todo : list str) (kg : graph) (s : state) :
  NoDup entities -> (forall e, e ∈ todo -> e ∈ entities) ->
  NoDup (kg.*1 ++ todo) ->
  exists kg' s',
    graph_from entities todo kg s = ([], Ret kg', s')
    /\ kg'.*1 = kg.*1 ++ todo
    /\ forall e rel, (e, rel) ∈ kg' ->
         (e, rel) ∈ kg
         \/ (length rel = min 3 (length entities - 1)
             /\ Forall (fun x => x <> e /\ x ∈ entities) rel).
Proof.
  intros Hnd. revert kg s. induction todo as [|ent todo IH]; intros kg s Hsub Hkeys.
  - exists kg, s. rewrite app_nil_r. auto.
  - destruct (related_sample entities ent s Hnd) as (related & Hrun & Hlen & Hall).
    { apply Hsub. by left. }
    assert (ent ∉ kg.*1) as Hfresh.
    { apply NoDup_app in Hkeys as (_ & Hdisj & _). intros Hin.
      apply (Hdisj ent Hin). by left. }
    destruct (IH (setitem ent related kg) (drawn (min 3 (length entities - 1)) s))
      as (kg' & s' & Hrec & Hk & Hgood).
    { intros e He. apply Hsub. by right. }
    { rewrite setitem_fresh, fmap_app by done. simpl.
      rewrite <- app_assoc. done. }
    exists kg', s'. cbn [graph_from]. unfold bind. rewrite Hrun, Hrec.
    split; [done|]. split.
    + rewrite Hk, setitem_fresh, fmap_app by done. simpl.
      by rewrite <- app_assoc.
    + intros e rel Hin. destruct (Hgood e rel Hin) as [Hold|Hnew]; [|by right].
      rewrite setitem_fresh in Hold by done.
      apply elem_of_app in Hold as [Hold|Hold]; [by left|].
      apply list_elem_of_singleton in Hold as [= -> ->]. by right.
Qed.

(** C7: for pairwise distinct entities [build_knowledge_graph] returns a
    mapping whose keys are the entities (in their order); each entity maps
    to [min 3 (n - 1)] entities of the input, all different from the key.
    The empty list gives the empty mapping and a single entity maps to the
    empty list. *)
Theorem build_knowledge_graph_keys_and_related (entities : list str) (s : state) :
  NoDup entities ->
  exists kg s',
    build_knowledge_graph entities s = ([], Ret kg, s')
    /\ kg.*1 = entities
    /\ (forall e rel, (e, rel) ∈ kg ->
          length rel = min 3 (length entities - 1)
          /\ Forall (fun x => x <> e /\ x ∈ entities) rel)
    /\ (entities = [] -> kg = [])
    /\ (forall e, entities = [e] -> kg = [(e, [])]).
Proof.
  intros Hnd.
  destruct (graph_from_spec entities entities [] s Hnd) as (kg & s' & Hrun & Hk & Hgood);
    [done|done|].
  simpl in Hk. exists kg, s'. split; [done|]. split; [done|].
  assert (forall e rel, (e, rel) ∈ kg ->
            length rel = min 3 (length entities - 1)
            /\ Forall (fun x => x <> e /\ x ∈ entities) rel) as Hall.
  { intros e rel Hin. destruct (Hgood e rel Hin) as [Hold|Hnew]; [|done].
    by apply elem_of_nil in Hold. }
  split; [done|]. split.
  - intros ->. by destruct kg.
  - intros e ->. destruct kg as [|[e' rel] [|? ?]]; simplify_eq/=.
    destruct (Hall e rel) as [Hlen _]; [by left|].
    by destruct rel.
Qed.

Lemma build_knowledge_graph_keys_and_related_witness :
  NoDup [« "Paris" »; « "France" »; « "capital" »; « "Europe" »; « "Seine" »]
  /\ exists kg s',
       build_knowledge_graph
         [« "Paris" »; « "France" »; « "capital" »; « "Europe" »; « "Seine" »] state0
       = ([], Ret kg, s')
       /\ kg.*1 = [« "Paris" »; « "France" »; « "capital" »; « "Europe" »; « "Seine" »].
Proof.
  assert (NoDup [« "Paris" »; « "France" »; « "capital" »; « "Europe" »; « "Seine" »])
    as H.
  { apply (bool_decide_unpack _). vm_compute. exact I. }
  split; [exact H|].
  destruct (build_knowledge_graph_keys_and_related _ state0 H)
    as (kg & s' & Hrun & Hk & _).
  exists kg, s'. split; [exact Hrun | exact Hk].
Defined.

(** ** The monad *)

Lemma bind_ret {A B} (c : M A) (k : A -> M B) (s s1 : state) (a : A) :
  c s = ([], Ret a, s1) -> bind c k s = k a s1.
Proof. intros H. unfold bind. rewrite H. by destruct (k a s1) as [[? ?] ?]. Qed.

Lemma bind_raise {A B} (c : M A) (k : A -> M B) (s s1 : state) out (e : exn) :
  c s = (out, Raise e, s1) -> bind c k s = (out, Raise e, s1).
Proof. intros H. unfold bind. by rewrite H. Qed.

(** ** [random.choice] and [random.shuffle] *)

Lemma random_choice_nil {A} (s : state) :
  random_choice (@nil A) s = ([], Raise IndexError, s).
Proof. reflexivity. Qed.

Lemma random_choice_elem {A} (seq : list A) (s : state) :
  seq <> [] ->
  exists x, random_choice seq s = ([], Ret x, drawn 1 s) /\ x ∈ seq.
Proof.
  intros Hne. destruct seq as [|a seq]; [done|].
  assert (rng s 0 mod length (a :: seq) < length (a :: seq)) as Hj
    by (apply Nat.mod_upper_bound; simpl; lia).
  destruct (lookup_lt_is_Some_2 _ _ Hj) as [x Hx].
  exists x. split; [|by eapply list_elem_of_lookup_2].
  unfold random_choice, bind, randbelow, lift, getitem. by rewrite Hx.
Qed.

Lemma insert_Permutation {A} (l : list A) (i : nat) (x y : A) :
  l !! i = Some y -> <[i := x]> l ≡ₚ x :: delete i l.
Proof.
  intros Hy. rewrite insert_take_drop by (by eapply lookup_lt_Some).
  rewrite delete_take_drop. by rewrite Permutation_middle.
Qed.

Lemma swap_Permutation {A} (i j : nat) (x : list A) : swap i j x ≡ₚ x.
Proof.
  unfold swap. destruct (x !! i) as [a|] eqn:Ha; [|done].
  destruct (x !! j) as [b|] eqn:Hb; [|done].
  destruct (decide (i = j)) as [->|Hne].
  - rewrite Ha in Hb. injection Hb as ->.
    rewrite (list_insert_id x j b) by done.
    by rewrite list_insert_id.
  - assert (<[i := b]> x !! j = Some b) as Hb'
      by (by rewrite list_lookup_insert_ne).
    rewrite (insert_Permutation _ j a b Hb').
    pose proof (delete_Permutation _ _ _ Hb') as H1.
    rewrite (insert_Permutation _ i b a Ha) in H1 at 1.
    apply Permutation_cons_inv in H1. rewrite <- H1.
    symmetry. by apply delete_Permutation.
Qed.

Lemma shuffle_from_spec {A} (i : nat) (x : list A) (s : state) :
  exists y, shuffle_from i x s = ([], Ret y, drawn i s) /\ y ≡ₚ x.
Proof.
  revert x s. induction i as [|i IH]; intros x s.
  - exists x. by destruct s.
  - destruct (IH (swap (S i) (rng s 0 mod S (S i)) x) (drawn 1 s)) as (y & Hrun & Hperm).
    exists y. split; [|by rewrite Hperm, swap_Permutation].
    cbn [shuffle_from]. unfold bind, randbelow. cbn [fst snd].
    change (State (fun i0 => rng s (S i0)) (stdin s)) with (drawn 1 s).
    by rewrite Hrun.
Qed.

Lemma random_shuffle_spec {A} (x : list A) (s : state) :
  exists y, random_shuffle x s = ([], Ret y, drawn (length x - 1) s) /\ y ≡ₚ x.
Proof. apply shuffle_from_spec. Qed.

(** ** [generate_quiz_question] *)

(** The padding loop: three rounds are enough; it fails only when it has
    to draw from no candidate. *)
Lemma pad_distractors_spec (candidates distractors : list str) (s : state) :
  (3 <= length distractors ->
     pad_distractors 3 candidates distractors s = ([], Ret distractors, s))
  /\ (length distractors < 3 -> candidates = [] ->
        pad_distractors 3 candidates distractors s = ([], Raise IndexError, s))
  /\ (length distractors < 3 -> candidates <> [] ->
        exists extra,
          pad_distractors 3 candidates distractors s
          = ([], Ret (distractors ++ extra), drawn (3 - length distractors) s)
          /\ length (distractors ++ extra) = 3
          /\ Forall (fun w => w ∈ candidates) extra).
Proof.
  split; [|split].
  - intros Hlen. simpl. destruct (length distractors <? 3) eqn:Hlt; [|done].
    apply Nat.ltb_lt in Hlt. lia.
  - intros Hlen ->. simpl. apply Nat.ltb_lt in Hlen. by rewrite Hlen.
  - intros Hlen Hne.
    assert (forall fuel ds s0, length ds < 3 -> 3 - length ds <= fuel ->
              exists extra,
                pad_distractors fuel candidates ds s0
                = ([], Ret (ds ++ extra), drawn (3 - length ds) s0)
                /\ length (ds ++ extra) = 3
                /\ Forall (fun w => w ∈ candidates) extra) as Hloop.
    { induction fuel as [|fuel IH]; intros ds s0 Hds Hfuel; [lia|].
      cbn [pad_distractors]. pose proof Hds as Hlt. apply Nat.ltb_lt in Hlt.
      rewrite Hlt.
      destruct (random_choice_elem candidates s0 Hne) as (w & Hw & Hin).
      rewrite (bind_ret _ _ _ _ _ Hw).
      destruct (decide (length (ds ++ [w]) < 3)) as [Hmore|Hdone].
      - destruct (IH (ds ++ [w]) (drawn 1 s0) Hmore) as (extra & Hrun & Hl & Hall).
        { rewrite length_app. simpl. lia. }
        exists (w :: extra). rewrite Hrun.
        rewrite length_app in Hmore |- *. simpl in *.
        rewrite <- app_assoc in Hl |- *. simpl in *.
        replace (3 - length ds) with (S (3 - (length ds + 1))) by lia.
        split; [done|]. split; [exact Hl | by constructor].
      - exists [w]. rewrite length_app in Hdone |- *. simpl in *.
        assert (length ds = 2) as Hds2 by lia. rewrite Hds2. simpl.
        split; [|split; [done|by repeat constructor]].
        destruct fuel as [|fuel]; simpl.
        + done.
        + rewrite length_app, Hds2. done. }
    apply Hloop; [done|lia].
Qed.

Lemma labelled_four (o0 o1 o2 o3 : str) :
  lift (omapM (fun i =>
          obind (getitem letters i) (fun letter =>
          obind (getitem [o0; o1; o2; o3] i) (fun opt =>
          Ret (letter ++ « ") " » ++ opt))))
        (seq 0 4))
  = lift (Ret (labelled [o0; o1; o2; o3])).
Proof. reflexivity. Qed.

Lemma well_formed_at (all_options : list str) (i : nat) (correct : str) :
  length all_options = 4 ->
  find_index correct all_options = Some i ->
  exists letter,
    getitem letters i = Ret letter
    /\ forall question,
         well_formed {| question := question; options := labelled all_options;
                        answer := letter |} i correct.
Proof.
  intros Hlen Hi. apply find_index_Some in Hi as [Hi _].
  destruct all_options as [|o0 [|o1 [|o2 [|o3 [|? ?]]]]]; try done.
  destruct i as [|[|[|[|i]]]]; simpl in Hi; try done; injection Hi as <-;
    (eexists; split; [reflexivity|]; intros q;
     exists o0, o1, o2, o3; repeat split; by vm_compute).
Qed.

Lemma quiz_body_spec (generate : str -> outcome str) (entity material : str)
    (s : state) :
  (forall e, generate (prompt material entity) = Raise e ->
     quiz_body generate entity material s = ([], Raise e, s))
  /\ (forall gen, generate (prompt material entity) = Ret gen ->
        length (parsed_distractors gen) < 3 ->
        other_words material (parsed_answer gen entity) = [] ->
        quiz_body generate entity material s = ([], Raise IndexError, s))
  /\ (forall gen, generate (prompt material entity) = Ret gen ->
        3 <= length (parsed_distractors gen)
        \/ other_words material (parsed_answer gen entity) <> [] ->
        exists extra all_options i q s',
          quiz_body generate entity material s = ([], Ret q, s')
          /\ Forall (fun w => w ∈ other_words material (parsed_answer gen entity)) extra
          /\ length (take 3 (parsed_distractors gen ++ extra)) = 3
          /\ all_options
             ≡ₚ parsed_answer gen entity :: take 3 (parsed_distractors gen ++ extra)
          /\ question q = parsed_question gen entity
          /\ options q = labelled all_options
          /\ find_index (parsed_answer gen entity) all_options = Some i
          /\ well_formed q i (parsed_answer gen entity)).
Proof.
  split; [|split].
  - intros e Hgen. unfold quiz_body. by rewrite Hgen.
  - intros gen Hgen Hlen Hnone. unfold quiz_body. rewrite Hgen.
    rewrite (bind_ret _ _ s s gen eq_refl).
    apply bind_raise.
    by apply (proj1 (proj2 (pad_distractors_spec _ _ s))).
  - intros gen Hgen Hcase. unfold quiz_body. rewrite Hgen.
    rewrite (bind_ret _ _ s s gen eq_refl).
    fold (parsed_answer gen entity). fold (parsed_distractors gen).
    fold (parsed_question gen entity).
    set (answer := parsed_answer gen entity) in *.
    set (ds := parsed_distractors gen) in *.
    assert (exists extra s1,
              pad_distractors 3 (other_words material answer) ds s
              = ([], Ret (ds ++ extra), s1)
              /\ 3 <= length (ds ++ extra)
              /\ Forall (fun w => w ∈ other_words material answer) extra)
      as (extra & s1 & Hpad & Hlen & Hall).
    { destruct (decide (length ds < 3)) as [Hlt|Hge].
      - destruct Hcase as [?|Hne]; [lia|].
        destruct (proj2 (proj2 (pad_distractors_spec _ ds s)) Hlt Hne)
          as (extra & Hrun & Hl & Hall).
        exists extra, (drawn (3 - length ds) s). split; [done|]. split; [lia|done].
      - exists [], s. rewrite app_nil_r. split; [|split; [lia|done]].
        apply (proj1 (pad_distractors_spec _ ds s)). lia. }
    rewrite (bind_ret _ _ _ _ _ Hpad).
    destruct (random_shuffle_spec (answer :: take 3 (ds ++ extra)) s1)
      as (all_options & Hshuffle & Hperm).
    rewrite (bind_ret _ _ _ _ _ Hshuffle).
    assert (length (take 3 (ds ++ extra)) = 3) as Hlen3
      by (rewrite length_take; lia).
    assert (length all_options = 4) as Hlen4.
    { rewrite Hperm. simpl. by rewrite Hlen3. }
    destruct (find_index_elem_of answer all_options) as [i Hi].
    { rewrite Hperm. by left. }
    destruct (well_formed_at all_options i answer Hlen4 Hi) as (letter & Hletter & Hwf).
    exists extra, all_options, i.
    destruct all_options as [|o0 [|o1 [|o2 [|o3 [|? ?]]]]]; try done.
    rewrite labelled_four.
    rewrite (bind_ret _ _ _ _ (labelled [o0; o1; o2; o3]) eq_refl).
    unfold index. rewrite Hi.
    rewrite (bind_ret _ _ _ _ i eq_refl). rewrite Hletter.
    rewrite (bind_ret _ _ _ _ letter eq_refl).
    eexists _, _. split; [reflexivity|].
    repeat (split; [done|]). apply Hwf.
Qed.

(** ** Markers in the generated text *)

Lemma startswith_spec (p s : str) :
  startswith p s = true <-> exists post, s = p ++ post.
Proof.
  revert s. induction p as [|c p IH]; intros s; simpl.
  - split; [by exists s|done].
  - destruct s as [|d s]; [split; [done|by intros [? ?]]|].
    rewrite andb_true_iff, bool_decide_eq_true, IH. split.
    + intros [-> [post ->]]. by exists post.
    + intros [post [= -> ->]]. eauto.
Qed.

Lemma contains_spec (sub s : str) :
  contains sub s = true <-> exists pre post, s = pre ++ sub ++ post.
Proof.
  induction s as [|c s IH]; simpl.
  - rewrite startswith_spec. split.
    + intros [post ->]. by exists [], post.
    + intros (pre & post & H). symmetry in H.
      apply app_eq_nil in H as [-> [-> ->]%app_eq_nil]. by exists [].
  - rewrite orb_true_iff, startswith_spec, IH. split.
    + intros [[post ->]|(pre & post & ->)]; [by exists [], post|].
      by exists (c :: pre), post.
    + intros ([|d pre] & post & H); simplify_eq/=; eauto.
Qed.

Lemma contains_infix (sub l s : str) :
  contains sub l = true -> (exists pre post, s = pre ++ l ++ post) ->
  contains sub s = true.
Proof.
  rewrite !contains_spec. intros (p1 & q1 & ->) (p2 & q2 & ->).
  exists (p2 ++ p1), (q1 ++ q2). by rewrite <- !app_assoc.
Qed.

Lemma strip_infix (s : str) : exists pre post, s = pre ++ strip s ++ post.
Proof.
  destruct (lstrip_suffix s) as [pre Hpre].
  destruct (rstrip_prefix (lstrip s)) as [post Hpost].
  exists pre, post. unfold strip. by rewrite <- Hpost.
Qed.

Lemma splitlines_from_infix (after_cr : bool) (cur s l : str) :
  (after_cr = true -> cur = []) ->
  l ∈ splitlines_from after_cr cur s ->
  exists pre post, cur ++ s = pre ++ l ++ post.
Proof.
  revert after_cr cur. induction s as [|c s IH]; intros after_cr cur Hcr; simpl.
  - destruct cur as [|d cur]; [by intros ?%elem_of_nil|].
    intros ->%list_elem_of_singleton. exists [], []. by rewrite !app_nil_r.
  - destruct ((code c =? 10)%N && after_cr) eqn:Hskip.
    + apply andb_true_iff in Hskip as [_ ->]. rewrite (Hcr eq_refl).
      intros (pre & post & H)%IH; [|done]. simpl in H.
      exists (c :: pre), post. simpl. by rewrite H.
    + destruct (is_linebreak c).
      * intros [->|Hin]%elem_of_cons; [by exists [], (c :: s)|].
        apply IH in Hin as (pre & post & H); [|done]. simpl in H.
        exists (cur ++ c :: pre), post. rewrite H, <- !app_assoc. done.
      * intros (pre & post & H)%IH; [|done].
        exists pre, post. rewrite <- H, <- app_assoc. done.
Qed.

Lemma parsed_lines_infix (gen l : str) :
  l ∈ parsed_lines gen -> exists pre post, gen = pre ++ l ++ post.
Proof.
  unfold parsed_lines, stripped_nonempty.
  intros (l0 & -> & Hin)%list_elem_of_fmap.
  apply list_elem_of_filter in Hin as [_ Hin].
  apply splitlines_from_infix in Hin as (p1 & q1 & H); [|done]. simpl in H.
  destruct (strip_infix l0) as (p2 & q2 & H0).
  exists (p1 ++ p2), (q2 ++ q1). rewrite H. rewrite H0 at 1.
  by rewrite <- !app_assoc.
Qed.

(** A marker that does not occur in the generated text selects no line:
    the field takes its default. *)
Lemma field_default (marker gen default : str) :
  contains marker gen = false ->
  field marker (parsed_lines gen) default = default.
Proof.
  intros Hno. unfold field.
  destruct (filter _ (parsed_lines gen)) as [|l ls] eqn:Hf; [done|].
  assert (l ∈ filter (fun l => contains marker l) (parsed_lines gen)) as Hin
    by (rewrite Hf; by left).
  apply list_elem_of_filter in Hin as [Hc Hin].
  apply Is_true_eq_true in Hc.
  rewrite (contains_infix marker l gen Hc) in Hno; [done|].
  by apply parsed_lines_infix.
Qed.

Lemma try_except_ret {A} (body : M A) (handler : exn -> M A) (s s1 : state) out (a : A) :
  body s = (out, Ret a, s1) -> try_except body handler s = (out, Ret a, s1).
Proof. intros H. unfold try_except. by rewrite H. Qed.

Lemma try_except_raise {A} (body : M A) (handler : exn -> M A) (s s1 : state) (e : exn) :
  body s = ([], Raise e, s1) -> try_except body handler s = handler e s1.
Proof.
  intros H. unfold try_except. rewrite H. by destruct (handler e s1) as [[? ?] ?].
Qed.

Lemma well_formed_placeholder (entity : str) :
  well_formed (placeholder entity) 0 « "Yes" ».
Proof. exists « "Yes" », « "No" », « "Maybe" », « "N/A" ». by repeat split. Qed.

(** [generate_quiz_question] always returns, and what it returns is the
    placeholder or a question built around the parsed answer. *)
Lemma generate_quiz_question_cases (G : Globals) (entity material : str)
    (s : state) :
  exists q s' i correct,
    generate_quiz_question G entity material s = ([], Ret q, s')
    /\ well_formed q i correct
    /\ ((q = placeholder entity /\ correct = « "Yes" »)
        \/ (exists generate gen,
              text_generator G = Some generate
              /\ generate (prompt material entity) = Ret gen
              /\ correct = parsed_answer gen entity)).
Proof.
  unfold generate_quiz_question.
  destruct (text_generator G) as [generate|] eqn:HG.
  - destruct (quiz_body_spec generate entity material s) as (Hraise & Hnone & Hok).
    destruct (generate (prompt material entity)) as [gen|e] eqn:Hgen.
    + destruct (decide (length (parsed_distractors gen) < 3)) as [Hlt|Hge];
        [destruct (decide (other_words material (parsed_answer gen entity) = []))
           as [Hno|Hsome]|].
      * exists (placeholder entity), s, 0, « "Yes" ».
        rewrite (try_except_raise _ _ _ _ _ (Hnone gen eq_refl Hlt Hno)).
        split; [done|]. split; [apply well_formed_placeholder|by left].
      * destruct (Hok gen eq_refl (or_intror Hsome))
          as (extra & all_options & i & q & s' & Hrun & _ & _ & _ & _ & _ & _ & Hwf).
        exists q, s', i, (parsed_answer gen entity).
        rewrite (try_except_ret _ _ _ _ _ _ Hrun). eauto 10.
      * destruct (Hok gen eq_refl)
          as (extra & all_options & i & q & s' & Hrun & _ & _ & _ & _ & _ & _ & Hwf);
          [left; lia|].
        exists q, s', i, (parsed_answer gen entity).
        rewrite (try_except_ret _ _ _ _ _ _ Hrun). eauto 10.
    + exists (placeholder entity), s, 0, « "Yes" ».
      rewrite (try_except_raise _ _ _ _ _ (Hraise e eq_refl)).
      split; [done|]. split; [apply well_formed_placeholder|by left].
  - exists (placeholder entity), s, 0, « "Yes" ».
    split; [done|]. split; [apply well_formed_placeholder|by left].
Qed.

(** C1: whatever the generator returns or raises and whatever the draws
    are, [generate_quiz_question] returns a question with exactly four
    options labelled "A) ", "B) ", "C) ", "D) " in this order; its answer
    is one of the four letters, exactly one option carries that label, and
    its text is the recorded correct answer (the parsed answer, or "Yes" in
    the placeholder). *)
Theorem generate_quiz_question_well_formed (G : Globals) (entity material : str)
    (s : state) :
  exists q s' i correct,
    generate_quiz_question G entity material s = ([], Ret q, s')
    /\ well_formed q i correct
    /\ ((q = placeholder entity /\ correct = « "Yes" »)
        \/ (exists generate gen,
              text_generator G = Some generate
              /\ generate (prompt material entity) = Ret gen
              /\ correct = parsed_answer gen entity)).
Proof. apply generate_quiz_question_cases. Qed.

(** C5, as the claim states it, fails: a generated text without markers
    does not lead to the placeholder. *)
Lemma generate_quiz_question_markers_counterexample :
  lacks_markers « "hello" »
  /\ text_generator chatty_model
       = Some (fun _ => Ret « "hello" »)
  /\ exists q s',
       generate_quiz_question chatty_model « "Paris" »
         « "Paris is the capital of France" » state0 = ([], Ret q, s')
       /\ options q = [« "A) Paris" »; « "B) the" »; « "C) is" »; « "D) capital" »]
       /\ q <> placeholder « "Paris" ».
Proof.
  split; [by vm_compute|]. split; [reflexivity|].
  eexists _, _. split; [by vm_compute|]. split; [reflexivity|].
  intros H. apply (f_equal options) in H. vm_compute in H. discriminate H.
Qed.

Lemma parsed_distractors_default (gen : str) :
  contains « "Distractors:" » gen = false -> parsed_distractors gen = [].
Proof. intros H. unfold parsed_distractors. by rewrite field_default. Qed.

(** C5, amended: the placeholder is returned when the generator is not
    loaded and when its call raises.  A generated text without the markers
    is not an error: question and answer default to the entity and no
    distractor is parsed; the placeholder is then returned only if no word
    of the material differs from the entity (ignoring case), and otherwise
    the options are the entity and three such words, shuffled. *)
Theorem generate_quiz_question_fallback (G : Globals) (entity material : str)
    (s : state) :
  (text_generator G = None ->
     generate_quiz_question G entity material s = ([], Ret (placeholder entity), s))
  /\ (forall generate e,
        text_generator G = Some generate ->
        generate (prompt material entity) = Raise e ->
        generate_quiz_question G entity material s = ([], Ret (placeholder entity), s))
  /\ (forall generate gen,
        text_generator G = Some generate ->
        generate (prompt material entity) = Ret gen ->
        lacks_markers gen ->
        parsed_question gen entity = entity
        /\ parsed_answer gen entity = entity
        /\ parsed_distractors gen = []
        /\ (other_words material entity = [] ->
              generate_quiz_question G entity material s
              = ([], Ret (placeholder entity), s))
        /\ (other_words material entity <> [] ->
              exists w1 w2 w3 all_options i q s',
                generate_quiz_question G entity material s = ([], Ret q, s')
                /\ Forall (fun w => w ∈ other_words material entity) [w1; w2; w3]
                /\ all_options ≡ₚ [entity; w1; w2; w3]
                /\ question q = entity
                /\ options q = labelled all_options
                /\ well_formed q i entity)).
Proof.
  unfold generate_quiz_question. split; [|split].
  - by intros ->.
  - intros generate e -> Hgen.
    destruct (quiz_body_spec generate entity material s) as (Hraise & _ & _).
    by rewrite (try_except_raise _ _ _ _ _ (Hraise e Hgen)).
  - intros generate gen -> Hgen (Hq & Ha & Hd).
    destruct (quiz_body_spec generate entity material s) as (_ & Hnone & Hok).
    assert (parsed_question gen entity = entity) as HQ by (by apply field_default).
    assert (parsed_answer gen entity = entity) as HA by (by apply field_default).
    pose proof (parsed_distractors_default gen Hd) as HD.
    split; [done|]. split; [done|]. split; [done|]. split.
    + intros Hno. rewrite (try_except_raise _ _ s s IndexError); [done|].
      apply (Hnone gen Hgen); rewrite ?HD, ?HA; [simpl; lia|done].
    + intros Hsome.
      destruct (Hok gen Hgen) as
        (extra & all_options & i & q & s' & Hrun & Hall & Hlen & Hperm & Hqq & Hopt & _ & Hwf).
      { right. by rewrite HA. }
      rewrite HD, HA in *. simpl in Hlen, Hperm.
      destruct extra as [|w1 [|w2 [|w3 extra]]]; try done.
      exists w1, w2, w3, all_options, i, q, s'.
      rewrite (try_except_ret _ _ _ _ _ _ Hrun).
      split; [done|]. split.
      { apply Forall_cons in Hall as [H1 Hall].
        apply Forall_cons in Hall as [H2 Hall].
        apply Forall_cons in Hall as [H3 _]. by repeat constructor. }
      split.
      { exact Hperm. }
      split; [by rewrite Hqq|done].
Qed.

Lemma generate_quiz_question_fallback_witness :
  text_generator failing_models = Some (fun _ => Raise (LibraryError « "generate" »))
  /\ generate_quiz_question failing_models « "Paris" »
       « "Paris is the capital of France" » state0
     = ([], Ret (placeholder « "Paris" »), state0).
Proof.
  split; [reflexivity|].
  exact (proj1 (proj2 (generate_quiz_question_fallback failing_models « "Paris" »
                         « "Paris is the capital of France" » state0))
           _ _ eq_refl eq_refl).
Defined.

(** ** The quiz loop *)

Lemma exit_letter (c : ascii) :
  lower_char c = "e"%char \/ lower_char c = "x"%char
  \/ lower_char c = "i"%char \/ lower_char c = "t"%char ->
  isspace c = false /\ upper_char c = upper_char (lower_char c).
Proof.
  destruct c as [[] [] [] [] [] [] [] []]; vm_compute;
    intros [H|[H|[H|H]]]; (split; reflexivity) || discriminate H.
Qed.

Lemma rstrip_spaces (s r : str) :
  Forall (fun c => isspace c = true) r -> rstrip (s ++ r) = rstrip s.
Proof.
  intros Hr. unfold rstrip. rewrite reverse_app, lstrip_spaces; [done|].
  by apply Forall_reverse.
Qed.

Lemma strip_core (pre core post : str) (c d : ascii) :
  Forall (fun c => isspace c = true) pre ->
  Forall (fun c => isspace c = true) post ->
  head core = Some c -> isspace c = false ->
  last core = Some d -> isspace d = false ->
  strip (pre ++ core ++ post) = core.
Proof.
  intros Hpre Hpost Hc Hcs Hd Hds. unfold strip.
  rewrite lstrip_spaces by done.
  destruct core as [|c' core]; simplify_eq/=.
  rewrite Hcs. rewrite app_comm_cons, rstrip_spaces by done.
  unfold rstrip.
  destruct (reverse (c :: core)) as [|d' rc] eqn:Hrev.
  { apply (f_equal reverse) in Hrev. by rewrite reverse_involutive in Hrev. }
  assert (d' = d) as ->.
  { rewrite <- (reverse_involutive (c :: core)), Hrev, last_reverse in Hd.
    by injection Hd. }
  rewrite lstrip_nonspace by done. rewrite <- Hrev. apply reverse_involutive.
Qed.

Lemma exit_sentinel_recognised (line : str) :
  is_exit_sentinel line -> upper (strip line) = « "EXIT" ».
Proof.
  intros (pre & core & post & -> & Hpre & Hpost & Hcore).
  destruct core as [|c1 [|c2 [|c3 [|c4 [|? ?]]]]]; try done.
  injection Hcore as H1 H2 H3 H4.
  destruct (exit_letter c1) as [Hs1 Hu1]; [tauto|].
  destruct (exit_letter c2) as [Hs2 Hu2]; [tauto|].
  destruct (exit_letter c3) as [Hs3 Hu3]; [tauto|].
  destruct (exit_letter c4) as [Hs4 Hu4]; [tauto|].
  rewrite (strip_core pre _ post c1 c4) by done.
  unfold upper. simpl. rewrite Hu1, Hu2, Hu3, Hu4, H1, H2, H3, H4. reflexivity.
Qed.

Lemma print_options_eq (opts : list str) (s : state) :
  mapM (fun opt => print (PrintOption opt)) opts s
  = (map PrintOption opts, Ret (map (fun _ => tt) opts), s).
Proof.
  induction opts as [|o opts IH]; [done|].
  cbn [mapM]. unfold bind at 1. cbn [print]. unfold bind at 1. rewrite IH.
  simpl. by rewrite app_nil_r.
Qed.

(** One round of the loop on a non-empty input. *)
Lemma quiz_loop_step (idx : nat) (q : Question) (rest : list Question)
    (line : str) (s : state) (lines : list str) :
  stdin s = line :: lines ->
  quiz_loop idx (q :: rest) s =
  if bool_decide (upper (strip line) = « "EXIT" ») then
    (round_output idx q, Ret tt, State (rng s) lines)
  else
    let '(out, r, s') := quiz_loop (S idx) rest (State (rng s) lines) in
    (round_output idx q
       ++ (if bool_decide (upper (strip line) = answer q) then PrintCorrect
           else PrintIncorrect (answer q)) :: out, r, s').
Proof.
  intros Hin. cbn [quiz_loop]. unfold bind at 1. cbn [print].
  unfold bind at 1. rewrite print_options_eq.
  unfold bind at 1. unfold input. rewrite Hin.
  unfold round_output.
  destruct (bool_decide (upper (strip line) = « "EXIT" »)).
  - reflexivity.
  - unfold bind. destruct (bool_decide (upper (strip line) = answer q));
      cbn [print];
      destruct (quiz_loop (S idx) rest _) as [[out r] s']; simpl;
      by rewrite <- !app_assoc.
Qed.

Lemma shown_questions_app (out out' : list event) :
  shown_questions (out ++ out') = shown_questions out ++ shown_questions out'.
Proof. apply omap_app. Qed.

Lemma shown_questions_round (idx : nat) (q : Question) :
  shown_questions (round_output idx q) = [idx].
Proof.
  unfold round_output, shown_questions. simpl. f_equal.
  rewrite omap_app. simpl. rewrite app_nil_r.
  induction (options q) as [|o os IH]; [done|]. done.
Qed.

Lemma round_output_last (idx : nat) (q : Question) :
  last (round_output idx q) = Some PromptAnswer.
Proof. unfold round_output. by rewrite app_comm_cons, last_snoc. Qed.

(** C8: when the answer typed at some question position is the exit
    sentinel, the loop ends normally right after reading an answer: the
    last thing on the console is the answer prompt of the round it stops
    in, the questions shown are those up to that round and no line is read
    beyond it.  The round it stops in is the position of the sentinel,
    unless an earlier answer already made the loop exit. *)
Theorem quiz_loop_exits_on_sentinel (qs : list Question) (idx k : nat)
    (line : str) (s : state) :
  k < length qs -> stdin s !! k = Some line -> is_exit_sentinel line ->
  exists out j s',
    quiz_loop idx qs s = (out, Ret tt, s')
    /\ j <= k
    /\ shown_questions out = seq idx (S j)
    /\ last out = Some PromptAnswer
    /\ stdin s' = drop (S j) (stdin s)
    /\ ((forall i l, i < k -> stdin s !! i = Some l ->
           upper (strip l) <> « "EXIT" ») -> j = k).
Proof.
  revert idx k s. induction qs as [|q rest IH]; intros idx k s Hk Hline Hexit;
    [simpl in Hk; lia|].
  destruct (stdin s) as [|l0 lines] eqn:Hin; [done|].
  rewrite (quiz_loop_step idx q rest l0 s lines Hin).
  case_bool_decide as Hans.
  - exists (round_output idx q), 0, (State (rng s) lines).
    split; [done|]. split; [lia|]. split; [apply shown_questions_round|].
    split; [apply round_output_last|]. split; [done|].
    intros Hearlier. destruct k as [|k]; [done|].
    exfalso. apply (Hearlier 0 l0); [lia|done|done].
  - destruct k as [|k].
    { simpl in Hline. injection Hline as ->.
      by apply exit_sentinel_recognised in Hexit. }
    simpl in Hline, Hk.
    destruct (IH (S idx) k (State (rng s) lines)) as
      (out & j & s' & Hrun & Hj & Hshown & Hlast & Hrest & Hfirst);
      [lia|done|done|].
    rewrite Hrun. eexists _, (S j), s'. split; [reflexivity|].
    split; [lia|]. split.
    { rewrite shown_questions_app, shown_questions_round.
      change (?v :: out) with ([v] ++ out).
      rewrite shown_questions_app, Hshown.
      by destruct (bool_decide (upper (strip l0) = answer q)). }
    split.
    { rewrite last_app, last_cons, Hlast. done. }
    split; [done|].
    intros Hearlier. f_equal. apply Hfirst. intros i l Hi Hl.
    apply (Hearlier (S i) l); [lia|done].
Qed.

Lemma quiz_loop_exits_on_sentinel_witness :
  exists out j s',
    quiz_loop 1 [placeholder « "one" »; placeholder « "two" »; placeholder « "three" »]
      (State (fun i => i) [« "b" »; « "  eXiT " »; « "a" »])
    = (out, Ret tt, s')
    /\ j <= 1
    /\ shown_questions out = seq 1 (S j)
    /\ last out = Some PromptAnswer
    /\ stdin s' = drop (S j) [« "b" »; « "  eXiT " »; « "a" »].
Proof.
  destruct (quiz_loop_exits_on_sentinel
              [placeholder « "one" »; placeholder « "two" »; placeholder « "three" »]
              1 1 « "  eXiT " » (State (fun i => i) [« "b" »; « "  eXiT " »; « "a" »]))
    as (out & j & s' & Hrun & Hj & Hshown & Hlast & Hrest & _).
  - simpl. lia.
  - reflexivity.
  - exists « "  " », « "eXiT" », « " " ». repeat split; try reflexivity;
      by repeat constructor.
  - exists out, j, s'. repeat split; assumption.
Defined.

(** ** What is written to the console *)


Lemma silent_ret {A} (a : A) : silent (ret a).
Proof. done. Qed.

Lemma silent_raise {A} (e : exn) : silent (@raise A e).
Proof. done. Qed.


Lemma silent_randbelow (n : nat) : silent (randbelow n).
Proof. done. Qed.












Lemma mapM_length {A B} (f : A -> M B) (l : list A) (s s' : state) out (bs : list B) :
  mapM f l s = (out, Ret bs, s') -> length bs = length l.
Proof.
  revert s out bs. induction l as [|a l IH]; intros s out bs; cbn [mapM].
  - by intros [= <- <- <-].
  - unfold bind at 1. destruct (f a s) as [[o1 [b|e]] s1]; [|done].
    unfold bind at 1. destruct (mapM f l s1) as [[o2 [bs'|e]] s2] eqn:Hrec; [|done].
    intros [= <- <- <-]. simpl. f_equal. by eapply IH.
Qed.

Lemma mapM_total {A B} (f : A -> M B) (l : list A) (s : state) :
  (forall a s0, exists b s1, f a s0 = ([], Ret b, s1)) ->
  exists bs s',
    mapM f l s = ([], Ret bs, s')
    /\ Forall2 (fun a b => exists s0 s1, f a s0 = ([], Ret b, s1)) l bs.
Proof.
  intros Hf. revert s. induction l as [|a l IH]; intros s.
  - exists [], s. split; [done|constructor].
  - destruct (Hf a s) as (b & s1 & Hb). destruct (IH s1) as (bs & s' & Hbs & Hall).
    exists (b :: bs), s'. cbn [mapM].
    rewrite (bind_ret _ _ _ _ _ Hb), (bind_ret _ _ _ _ _ Hbs).
    split; [done|]. constructor; eauto.
Qed.








Lemma make_quiz_length (G : Globals) (text_data : str) (s s' : state) out
    (entities : list str) (kg : graph) (qs : list Question) :
  make_quiz G text_data s = (out, Ret (entities, kg, qs), s') ->
  length qs = min 10 (length entities).
Proof.
  unfold make_quiz. unfold bind at 1.
  destruct (extract_entities G text_data s) as [[o1 [ents|e]] s1]; [|done].
  unfold bind at 1.
  destruct (build_knowledge_graph ents s1) as [[o2 [kg'|e]] s2]; [|done].
  unfold bind at 1.
  destruct (mapM _ (take 10 ents) s2) as [[o3 [qs'|e]] s3] eqn:Hq; [|done].
  intros [= <- <- <- <- <-]. apply mapM_length in Hq.
  rewrite Hq, length_take. lia.
Qed.






(** C2: the NER call of [extract_entities] is not guarded.  With both
    models loaded and failing, the exception of the pipeline leaves
    [extract_entities] and ends the run of [start_quiz] after the text was
    pasted, whereas the failing generator is caught inside
    [generate_quiz_question], which prints nothing and returns the
    placeholder. *)
Theorem extract_entities_ner_failure_propagates :
  extract_entities failing_models « "alpha beta" » state0
  = ([], Raise ValueError, state0)
  /\ start_quiz failing_models no_library
       (State (fun i => i) [« "1" »; « "alpha beta" »])
     = ([PrintBanner; PromptChoice; PromptPaste; PrintGenerating],
        Raise ValueError, State (fun i => i) [])
  /\ generate_quiz_question failing_models « "alpha" » « "alpha beta" » state0
     = ([], Ret (placeholder « "alpha" »), state0).
Proof. repeat split. Qed.

(** * Further properties of the script *)

(** ** Loading the models (lines 14-21) *)

Lemma drawn_0 (s : state) : drawn 0 s = s.
Proof. by destruct s. Qed.

Lemma bind_out_ret {A B} (c : M A) (k : A -> M B) (s s1 : state) out (a : A) :
  c s = (out, Ret a, s1) ->
  bind c k s = let '(out', r, s2) := k a s1 in (out ++ out', r, s2).
Proof. intros H. unfold bind. by rewrite H. Qed.

(** X1: loading never raises and prints exactly one message; the two
    handles are set together when both loads succeed, and are both None as
    soon as one load fails.  After a failed load every call of
    [extract_entities] returns and every question is the placeholder. *)
Theorem load_models_both_or_none
    (spacy_load : outcome (str -> outcome (list str)))
    (pipeline : outcome (str -> outcome str)) (s : state) :
  exists msg G,
    load_models spacy_load pipeline s = ([msg], Ret G, s)
    /\ ((exists run generate,
           spacy_load = Ret run /\ pipeline = Ret generate
           /\ msg = PrintModelsLoaded
           /\ nlp G = Some run /\ text_generator G = Some generate)
        \/ (exists e,
              (spacy_load = Raise e
               \/ ((exists run, spacy_load = Ret run) /\ pipeline = Raise e))
              /\ msg = PrintModelLoadError e
              /\ nlp G = None /\ text_generator G = None
              /\ (forall text s0, exists ents s1,
                    extract_entities G text s0 = ([], Ret ents, s1))
              /\ (forall entity material s0,
                    generate_quiz_question G entity material s0
                    = ([], Ret (placeholder entity), s0)))).
Proof.
  unfold load_models, try_except, bind, lift, print.
  destruct spacy_load as [run|e]; [destruct pipeline as [generate|e]|]; simpl.
  - eexists _, _. split; [reflexivity|]. left. by exists run, generate.
  - eexists _, _. split; [reflexivity|]. right. exists e.
    split; [right; eauto|]. repeat (split; [done|]). split; [|done].
    intros text s0.
    destruct (extract_entities_eq {| nlp := None; text_generator := None |}
                text [] s0) as (combined & s1 & _ & Hrun); [by left|]. eauto.
  - eexists _, _. split; [reflexivity|]. right. exists e.
    split; [by left|]. repeat (split; [done|]). split; [|done].
    intros text s0.
    destruct (extract_entities_eq {| nlp := None; text_generator := None |}
                text [] s0) as (combined & s1 & _ & Hrun); [by left|]. eauto.
Qed.

(** ** The menu of [start_quiz] (lines 126-139) *)

Lemma strip_all_space (t : str) :
  Forall (fun c => isspace c = true) t -> strip t = [].
Proof.
  intros Ht. unfold strip.
  rewrite <- (app_nil_r t), lstrip_spaces by done. reflexivity.
Qed.

Lemma start_quiz_menu (G : Globals) (w : World) (s : state) (line : str)
    (rest : list str) :
  stdin s = line :: rest ->
  start_quiz G w s =
  let '(out, r, s') :=
    (if bool_decide (strip line = « "1" ») then
       let* text_data := input PromptPaste in quiz_session G text_data
     else if bool_decide (strip line = « "2" ») then
       let* filepath := input PromptPath in
       let filepath := strip filepath in
       if negb (path_exists w filepath) then print PrintFileNotFound
       else
         let* text_data := extract_text_from_file w filepath in
         match text_data with
         | [] => print PrintNoText
         | _ => quiz_session G text_data
         end
     else print PrintInvalidChoice) (State (rng s) rest) in
  (PrintBanner :: PromptChoice :: out, r, s').
Proof.
  intros Hin. unfold start_quiz.
  rewrite (bind_out_ret _ _ s s [PrintBanner] tt eq_refl).
  rewrite (bind_out_ret _ _ s (State (rng s) rest) [PromptChoice] line)
    by (unfold input; by rewrite Hin).
  cbv zeta.
  match goal with |- context [?c (State (rng s) rest)] =>
    destruct (c (State (rng s) rest)) as [[out r] s'] end.
  reflexivity.
Qed.

(** X2: a menu answer that is neither "1" nor "2" (after stripping) ends
    the run at once: nothing more is read or printed than the refusal. *)
Theorem start_quiz_invalid_choice (G : Globals) (w : World) (s : state)
    (line : str) (rest : list str) :
  stdin s = line :: rest ->
  strip line <> « "1" » -> strip line <> « "2" » ->
  start_quiz G w s
  = ([PrintBanner; PromptChoice; PrintInvalidChoice], Ret tt, State (rng s) rest).
Proof.
  intros Hin H1 H2. rewrite (start_quiz_menu G w s line rest Hin).
  by rewrite !bool_decide_eq_false_2.
Qed.

Lemma start_quiz_invalid_choice_witness :
  start_quiz chatty_model no_library (State (fun i => i) [« " 3 " »; « "x" »])
  = ([PrintBanner; PromptChoice; PrintInvalidChoice], Ret tt,
     State (fun i => i) [« "x" »]).
Proof.
  apply (start_quiz_invalid_choice chatty_model no_library
           (State (fun i => i) [« " 3 " »; « "x" »]) « " 3 " » [« "x" »]).
  - reflexivity.
  - vm_compute. discriminate.
  - vm_compute. discriminate.
Defined.

Lemma start_quiz_file (G : Globals) (w : World) (s : state)
    (line path : str) (rest : list str) :
  stdin s = line :: path :: rest ->
  strip line = « "2" » ->
  let filepath := strip path in
  let s' := State (rng s) rest in
  start_quiz G w s =
  if path_exists w filepath then
    match decode w (file_ext filepath) filepath [] with
    | Raise e =>
        ([PrintBanner; PromptChoice; PromptPath;
          PrintReadWarning filepath e; PrintNoText], Ret tt, s')
    | Ret t =>
        match strip t with
        | [] => ([PrintBanner; PromptChoice; PromptPath; PrintNoText], Ret tt, s')
        | c :: text =>
            let '(out, r, s2) := quiz_session G (c :: text) s' in
            (PrintBanner :: PromptChoice :: PromptPath :: out, r, s2)
        end
    end
  else ([PrintBanner; PromptChoice; PromptPath; PrintFileNotFound], Ret tt, s').
Proof.
  intros Hin Hline filepath s'.
  rewrite (start_quiz_menu G w s line (path :: rest) Hin), Hline.
  change (bool_decide (« "2" » = « "1" »)) with false.
  change (bool_decide (« "2" » = « "2" »)) with true. cbv iota.
  unfold bind, input. cbn [stdin rng]. fold filepath. fold s'.
  destruct (path_exists w filepath); cbv [negb]; [|reflexivity].
  rewrite extract_text_from_file_eq.
  destruct (decode w (file_ext filepath) filepath []) as [t|e]; [|reflexivity].
  destruct (strip t) as [|c text]; [reflexivity|].
  by destruct (quiz_session G (c :: text) s') as [[out r] s2].
Qed.

(** X3: with menu answer "2" the run ends without a quiz whenever the file
    gives no text: the path does not exist; or decoding fails (its warning
    is printed first); or the decoded text is empty or all whitespace, as
    for every extension without a branch.  In each case [start_quiz]
    returns normally and shows no question. *)
Theorem start_quiz_file_without_text (G : Globals) (w : World) (s : state)
    (line path : str) (rest : list str) :
  stdin s = line :: path :: rest ->
  strip line = « "2" » ->
  let filepath := strip path in
  let s' := State (rng s) rest in
  (path_exists w filepath = false ->
     start_quiz G w s
     = ([PrintBanner; PromptChoice; PromptPath; PrintFileNotFound], Ret tt, s'))
  /\ (forall e,
        path_exists w filepath = true ->
        decode w (file_ext filepath) filepath [] = Raise e ->
        start_quiz G w s
        = ([PrintBanner; PromptChoice; PromptPath;
            PrintReadWarning filepath e; PrintNoText], Ret tt, s'))
  /\ (forall t,
        path_exists w filepath = true ->
        decode w (file_ext filepath) filepath [] = Ret t ->
        Forall (fun c => isspace c = true) t ->
        start_quiz G w s
        = ([PrintBanner; PromptChoice; PromptPath; PrintNoText], Ret tt, s'))
  /\ (path_exists w filepath = true ->
      file_ext filepath ∉ supported_extensions ->
      start_quiz G w s
      = ([PrintBanner; PromptChoice; PromptPath; PrintNoText], Ret tt, s')).
Proof.
  intros Hin Hline filepath s'.
  pose proof (start_quiz_file G w s line path rest Hin Hline) as Heq.
  cbv zeta in Heq. fold filepath in Heq. fold s' in Heq. rewrite Heq.
  split; [|split; [|split]].
  - by intros ->.
  - by intros e -> ->.
  - intros t -> -> Ht. by rewrite strip_all_space.
  - intros -> Hext. by rewrite decode_unsupported.
Qed.

Lemma start_quiz_file_without_text_witness :
  start_quiz chatty_model broken_pdf
    (State (fun i => i) [« "2" »; « " scan.pdf " »; « "x" »])
  = ([PrintBanner; PromptChoice; PromptPath;
      PrintReadWarning « "scan.pdf" » (LibraryError « "page two" »); PrintNoText],
     Ret tt, State (fun i => i) [« "x" »]).
Proof.
  apply (proj1 (proj2 (start_quiz_file_without_text chatty_model broken_pdf
                         (State (fun i => i) [« "2" »; « " scan.pdf " »; « "x" »])
                         « "2" » « " scan.pdf " » [« "x" »] eq_refl eq_refl))).
  - reflexivity.
  - reflexivity.
Defined.

(** ** Answers typed at the console (lines 151-156) *)

Lemma lstrip_suffix_spaces (s : str) :
  exists l, s = l ++ lstrip s /\ Forall (fun c => isspace c = true) l.
Proof.
  induction s as [|d s (l & IH & Hl)]; simpl.
  - by exists [].
  - destruct (isspace d) eqn:Hd; [|by exists []].
    exists (d :: l). split; [simpl; by rewrite <- IH|by constructor].
Qed.

Lemma strip_decompose (s : str) :
  exists pre post,
    s = pre ++ strip s ++ post
    /\ Forall (fun c => isspace c = true) pre
    /\ Forall (fun c => isspace c = true) post.
Proof.
  destruct (lstrip_suffix_spaces s) as (pre & Hpre & Hp).
  destruct (lstrip_suffix_spaces (reverse (lstrip s))) as (post & Hpost & Hq).
  exists pre, (reverse post). split; [|split; [done|by apply Forall_reverse]].
  rewrite Hpre at 1. f_equal. unfold strip, rstrip.
  rewrite <- reverse_app, <- Hpost. by rewrite reverse_involutive.
Qed.

Lemma upper_char_cases (c : ascii) :
  upper_char c = « "SS" »
  \/ exists d,
       upper_char c = [d]
       /\ (plain_capital d = true -> lower_char c = lower_char d /\ isspace c = false).
Proof.
  destruct c as [[] [] [] [] [] [] [] []];
    first [ left; reflexivity
          | right; eexists; split; [reflexivity|];
            vm_compute; intros H; first [discriminate H | by split] ].
Qed.

Lemma lower_capital (d : ascii) :
  plain_capital d = true ->
  upper_char (lower_char d) = [d] /\ lower_char (lower_char d) = lower_char d.
Proof.
  destruct d as [[] [] [] [] [] [] [] []]; vm_compute; intros H;
    first [discriminate H | by split].
Qed.

Lemma upper_of_matching (c d : ascii) :
  plain_capital d = true -> lower_char c = lower_char d ->
  upper_char c = [d] /\ isspace c = false.
Proof.
  intros Hd H. destruct (lower_capital d Hd) as [Hu _]. rewrite <- H in Hu. clear H.
  destruct c as [[] [] [] [] [] [] [] []]; vm_compute in Hu;
    first [ discriminate Hu
          | injection Hu as <-; vm_compute in Hd;
            first [discriminate Hd | by vm_compute] ].
Qed.

Lemma upper_nil (core : str) : upper core = [] -> core = [].
Proof.
  destruct core as [|c core]; [done|]. unfold upper. simpl.
  destruct (upper_char_cases c) as [->|(d & -> & _)]; discriminate.
Qed.

(** Upper-casing gives a word of plain capitals exactly for the words that
    are equal to it up to case; these contain no whitespace. *)
Lemma upper_eq_iff (core expected : str) :
  Forall (fun d => plain_capital d = true) expected ->
  (upper core = expected <-> lower core = lower expected)
  /\ (lower core = lower expected -> Forall (fun c => isspace c = false) core).
Proof.
  intros Hexp. revert core. induction Hexp as [|d expected Hd _ IH]; intros core.
  - split; [|by intros ->%fmap_nil_inv].
    split; [by intros ->%upper_nil|by intros ->%fmap_nil_inv].
  - destruct core as [|c core].
    { split; [split; discriminate|discriminate]. }
    destruct (IH core) as [Hiff Hns]. unfold upper, lower in *. simpl. split; [split|].
    + destruct (upper_char_cases c) as [Hc|(d0 & Hc & Hlow)]; rewrite Hc.
      * intros [= <- _]. by vm_compute in Hd.
      * intros [= -> Hrest]. destruct (Hlow Hd) as [-> _].
        f_equal. by apply Hiff.
    + intros [= Hc Hrest]. destruct (upper_of_matching c d Hd Hc) as [-> _].
      simpl. f_equal. by apply Hiff.
    + intros [= Hc Hrest]. destruct (upper_of_matching c d Hd Hc) as [_ Hsp].
      constructor; [done|by apply Hns].
Qed.

(** What the quiz loop computes from a typed line equals a non-empty word
    of plain capitals exactly when the line is that word up to case and
    surrounding whitespace. *)
Lemma typed_answer_iff (line expected : str) :
  expected <> [] -> Forall (fun d => plain_capital d = true) expected ->
  upper (strip line) = expected <-> matches_ignoring_case_and_space line expected.
Proof.
  intros Hne Hexp. split.
  - intros Hup. destruct (strip_decompose line) as (pre & post & Hline & Hpre & Hpost).
    exists pre, (strip line), post. repeat (split; [done|]).
    by apply (upper_eq_iff _ _ Hexp).
  - intros (pre & core & post & -> & Hpre & Hpost & Hcore).
    destruct (upper_eq_iff core expected Hexp) as [Hiff Hns].
    specialize (Hns Hcore).
    assert (core <> []) as Hcne.
    { intros ->. destruct expected; [done|discriminate]. }
    destruct core as [|c core]; [done|].
    destruct (last (c :: core)) as [d|] eqn:Hlast; [|by apply last_None in Hlast].
    rewrite (strip_core pre (c :: core) post c d); try done.
    + by apply Hiff.
    + by apply Forall_cons in Hns as [? _].
    + rewrite Forall_forall in Hns. apply Hns. by apply last_Some_elem_of.
Qed.


Lemma sentinel_plain :
  sentinel <> [] /\ Forall (fun d => plain_capital d = true) sentinel.
Proof. split; [discriminate|by repeat constructor]. Qed.










(** ** The session (lines 141-161) *)

Lemma print_graph_eq (kg : graph) (s : state) :
  mapM (fun kv => print (PrintGraphEntry kv.1 kv.2)) kg s
  = (graph_output kg, Ret (map (fun _ => tt) kg), s).
Proof.
  induction kg as [|kv kg IH]; [done|].
  cbn [mapM]. unfold bind at 1. cbn [print]. unfold bind at 1. rewrite IH.
  simpl. by rewrite app_nil_r.
Qed.

Lemma quiz_session_eq (G : Globals) (text_data : str) (s s1 : state)
    (entities : list str) (kg : graph) (qs : list Question) :
  make_quiz G text_data s = ([], Ret (entities, kg, qs), s1) ->
  quiz_session G text_data s =
  match quiz_loop 1 qs s1 with
  | (lo, Ret _, s2) =>
      (PrintGenerating :: PrintQuizStarted
         :: lo ++ PrintFinished :: PrintGraphHeader :: graph_output kg, Ret tt, s2)
  | (lo, Raise e, s2) => (PrintGenerating :: PrintQuizStarted :: lo, Raise e, s2)
  end.
Proof.
  intros Hq. unfold quiz_session.
  rewrite (bind_out_ret _ _ s s [PrintGenerating] tt eq_refl).
  rewrite (bind_out_ret _ _ s s1 [] _ Hq). cbv iota beta.
  rewrite (bind_out_ret _ _ s1 s1 [PrintQuizStarted] tt eq_refl).
  unfold bind at 1.
  destruct (quiz_loop 1 qs s1) as [[lo [[]|e]] s2]; [|reflexivity].
  unfold bind. cbn [print]. rewrite print_graph_eq. simpl.
  by rewrite app_nil_r.
Qed.

Lemma quiz_session_ner_failure (G : Globals) (text_data : str) (s : state)
    (run : str -> outcome (list str)) (e : exn) :
  nlp G = Some run -> run text_data = Raise e ->
  quiz_session G text_data s = ([PrintGenerating], Raise e, s).
Proof.
  intros Hnlp Hrun. unfold quiz_session.
  rewrite (bind_out_ret _ _ s s [PrintGenerating] tt eq_refl).
  unfold make_quiz, extract_entities, ner_entities, bind, lift.
  by rewrite Hnlp, Hrun.
Qed.

Lemma make_quiz_returns (G : Globals) (text_data : str) (ents : list str) (s : state) :
  ner_yields G text_data ents ->
  exists kg qs s0 s1 s2 combined,
    pad_entities ents text_data s = ([], Ret combined, s0)
    /\ build_knowledge_graph (fromkeys combined) s0 = ([], Ret kg, s1)
    /\ mapM (fun ent => generate_quiz_question G ent text_data)
         (take 10 (fromkeys combined)) s1 = ([], Ret qs, s2)
    /\ make_quiz G text_data s = ([], Ret (fromkeys combined, kg, qs), s2)
    /\ kg.*1 = fromkeys combined.
Proof.
  intros Hner.
  destruct (extract_entities_eq G text_data ents s Hner) as (combined & s0 & Hpad & Hents).
  destruct (fromkeys_first_seen combined) as (Hnd & _).
  destruct (graph_from_spec (fromkeys combined) (fromkeys combined) [] s0 Hnd)
    as (kg & s1 & Hkg & Hkeys & _); [done|done|].
  destruct (mapM_total (fun ent => generate_quiz_question G ent text_data)
              (take 10 (fromkeys combined)) s1) as (qs & s2 & Hqs & _).
  { intros ent st.
    destruct (generate_quiz_question_cases G ent text_data st) as (q & st' & _ & _ & Hq & _).
    eauto. }
  exists kg, qs, s0, s1, s2, combined. repeat (split; [done|]). split; [|done].
  unfold make_quiz. rewrite (bind_ret _ _ _ _ _ Hents).
  unfold build_knowledge_graph in Hkg |- *. rewrite (bind_ret _ _ _ _ _ Hkg).
  by rewrite (bind_ret _ _ _ _ _ Hqs).
Qed.

(** X7: once the quiz is made, the session prints the knowledge graph, one
    line per entity in the order of the entities, whenever the quiz loop
    ends normally; this includes leaving the quiz with the exit sentinel.
    When the loop raises (end of input) nothing is printed after it, and
    when the NER call raises the session ends right after its first
    message. *)
Theorem quiz_session_prints_graph (G : Globals) (text_data : str) (s : state) :
  (forall ents, ner_yields G text_data ents ->
     exists entities kg qs s1,
       make_quiz G text_data s = ([], Ret (entities, kg, qs), s1)
       /\ kg.*1 = entities
       /\ (forall lo s2,
             quiz_loop 1 qs s1 = (lo, Ret tt, s2) ->
             quiz_session G text_data s
             = (PrintGenerating :: PrintQuizStarted
                  :: lo ++ PrintFinished :: PrintGraphHeader :: graph_output kg,
                Ret tt, s2))
       /\ (forall lo e s2,
             quiz_loop 1 qs s1 = (lo, Raise e, s2) ->
             quiz_session G text_data s
             = (PrintGenerating :: PrintQuizStarted :: lo, Raise e, s2)))
  /\ (forall run e, nlp G = Some run -> run text_data = Raise e ->
        quiz_session G text_data s = ([PrintGenerating], Raise e, s)).
Proof.
  split; [|intros run e; apply quiz_session_ner_failure].
  intros ents Hner.
  destruct (make_quiz_returns G text_data ents s Hner)
    as (kg & qs & s0 & s1 & s2 & combined & _ & _ & _ & Hrun & Hkeys).
  exists (fromkeys combined), kg, qs, s2.
  split; [done|]. split; [done|].
  pose proof (quiz_session_eq G text_data s s2 _ kg qs Hrun) as Heq.
  split.
  - intros lo s3 Hloop. by rewrite Heq, Hloop.
  - intros lo e s3 Hloop. by rewrite Heq, Hloop.
Qed.

Lemma quiz_session_prints_graph_witness :
  exists entities kg qs s1,
    make_quiz chatty_model « "Paris is the capital of France" » state0
    = ([], Ret (entities, kg, qs), s1)
    /\ kg.*1 = entities.
Proof.
  destruct (proj1 (quiz_session_prints_graph chatty_model
                     « "Paris is the capital of France" » state0) [])
    as (entities & kg & qs & s1 & Hrun & Hkeys & _).
  - right. eexists. split; reflexivity.
  - exists entities, kg, qs, s1. split; [exact Hrun | exact Hkeys].
Defined.

Lemma start_quiz_paste (G : Globals) (w : World) (s : state)
    (line text_data : str) (rest : list str) :
  stdin s = line :: text_data :: rest ->
  strip line = « "1" » ->
  start_quiz G w s =
  let '(out, r, s2) := quiz_session G text_data (State (rng s) rest) in
  (PrintBanner :: PromptChoice :: PromptPaste :: out, r, s2).
Proof.
  intros Hin Hline.
  rewrite (start_quiz_menu G w s line (text_data :: rest) Hin), Hline.
  change (bool_decide (« "1" » = « "1" »)) with true. cbv iota.
  unfold bind, input. cbn [stdin rng].
  by destruct (quiz_session G text_data _) as [[out r] s2].
Qed.

Lemma make_quiz_nothing (G : Globals) (text_data : str) (s : state) :
  ner_yields G text_data [] -> long_words text_data = [] ->
  make_quiz G text_data s = ([], Ret ([], [], []), s).
Proof.
  intros Hner Hlong.
  assert (extract_entities G text_data s = ([], Ret [], s)) as Hents.
  { unfold extract_entities.
    rewrite (bind_ret _ _ _ _ _ (ner_entities_eq G text_data [] s Hner)).
    rewrite (bind_ret (pad_entities [] text_data) _ s s []); [done|].
    rewrite pad_entities_eq, Hlong. simpl. by destruct s. }
  unfold make_quiz. by rewrite (bind_ret _ _ _ _ _ Hents).
Qed.

(** X8: a pasted text without any word of more than three characters, on
    which the NER stage finds nothing (or is not loaded), leads to an empty
    quiz: the run prints its opening and closing messages and an empty
    graph, asks no question, reads no answer and returns normally.  The
    empty line is such a text. *)
Theorem start_quiz_nothing_to_ask (G : Globals) (w : World) (s : state)
    (line text_data : str) (rest : list str) :
  stdin s = line :: text_data :: rest ->
  strip line = « "1" » ->
  ner_yields G text_data [] ->
  long_words text_data = [] ->
  start_quiz G w s
  = ([PrintBanner; PromptChoice; PromptPaste; PrintGenerating; PrintQuizStarted;
      PrintFinished; PrintGraphHeader], Ret tt, State (rng s) rest).
Proof.
  intros Hin Hline Hner Hlong.
  rewrite (start_quiz_paste G w s line text_data rest Hin Hline).
  by rewrite (quiz_session_eq G text_data _ _ [] [] []
                (make_quiz_nothing G text_data _ Hner Hlong)).
Qed.

Lemma start_quiz_nothing_to_ask_witness :
  start_quiz chatty_model no_library (State (fun i => i) [« "1" »; « "" »; « "a" »])
  = ([PrintBanner; PromptChoice; PromptPaste; PrintGenerating; PrintQuizStarted;
      PrintFinished; PrintGraphHeader], Ret tt, State (fun i => i) [« "a" »]).
Proof.
  apply (start_quiz_nothing_to_ask chatty_model no_library
           (State (fun i => i) [« "1" »; « "" »; « "a" »]) « "1" » « "" » [« "a" »]).
  - reflexivity.
  - reflexivity.
  - right. eexists. split; reflexivity.
  - reflexivity.
Defined.

(** ** [build_knowledge_graph] on arbitrary lists (lines 115-120) *)

Lemma setitem_keys {V} (k : str) (v : V) (d : list (str * V)) :
  (setitem k v d).*1 = add_key (d.*1) k.
Proof.
  unfold add_key. induction d as [|[k' v'] d IH]; cbn [setitem].
  - rewrite decide_False; [done|]. by intros ?%elem_of_nil.
  - rewrite (fmap_cons fst _ d). cbn [fst].
    destruct (decide (k' = k)) as [->|Hne].
    + rewrite decide_True by (by left). done.
    + rewrite fmap_cons, IH. cbn [fst].
      destruct (decide (k ∈ d.*1)) as [Hin|Hnin].
      * rewrite decide_True by (by right). done.
      * rewrite decide_False; [done|].
        intros [?|?]%elem_of_cons; [congruence|done].
Qed.

Lemma setitem_elem_of {V} (k : str) (v : V) (d : list (str * V)) (kv : str * V) :
  kv ∈ setitem k v d -> kv = (k, v) \/ kv ∈ d.
Proof.
  induction d as [|[k' v'] d IH]; simpl.
  - intros ->%list_elem_of_singleton. by left.
  - destruct (decide (k' = k)) as [->|Hne].
    + intros [->|Hin]%elem_of_cons; [by left|right; by right].
    + intros [->|Hin]%elem_of_cons; [right; by left|].
      destruct (IH Hin) as [->|Hd]; [by left|right; by right].
Qed.

Lemma graph_from_general (entities todo : list str) (kg : graph) (s : state) :
  (Forall (enough_others entities) todo ->
     exists kg' s',
       graph_from entities todo kg s = ([], Ret kg', s')
       /\ kg'.*1 = fold_left add_key todo (kg.*1)
       /\ forall e rel, (e, rel) ∈ kg' ->
            (e, rel) ∈ kg
            \/ (length rel = min 3 (length entities - 1)
                /\ Forall (fun x => x <> e /\ x ∈ entities) rel))
  /\ (Exists (fun ent => ~ enough_others entities ent) todo ->
        exists s', graph_from entities todo kg s = ([], Raise ValueError, s')).
Proof.
  revert kg s. induction todo as [|ent todo IH]; intros kg s.
  { split; [|by intros ?%Exists_nil]. intros _. exists kg, s. auto. }
  set (pool := filter (fun e => e <> ent) entities).
  set (k := min 3 (length entities - 1)).
  destruct (decide (k <= length pool)) as [Hk|Hk].
  - pose proof (random_sample_eq pool k s Hk) as Hrun.
    set (related := pick_by (draws_of (rng s) (length pool) k) pool) in Hrun.
    assert (length related = k /\ Forall (fun x => x <> ent /\ x ∈ entities) related)
      as [Hlen Hrel].
    { split.
      - unfold related. rewrite pick_by_length; [apply draws_of_length|].
        by apply draws_of_valid.
      - apply Forall_forall. intros x Hx%pick_by_elem_of.
        by apply list_elem_of_filter in Hx. }
    destruct (IH (setitem ent related kg) (drawn k s)) as [IHok IHbad].
    cbn [graph_from]. fold pool. fold k. rewrite (bind_ret _ _ _ _ _ Hrun). split.
    + intros [_ Htodo]%Forall_cons.
      destruct (IHok Htodo) as (kg' & s' & Hrec & Hkeys & Hgood).
      exists kg', s'. split; [done|]. split.
      * rewrite Hkeys, setitem_keys. done.
      * intros e rel Hin. destruct (Hgood e rel Hin) as [Hold|Hnew]; [|by right].
        apply setitem_elem_of in Hold as [[= -> ->]|Hold]; [by right|by left].
    + intros [Hbad|Hbad]%Exists_cons; [by destruct Hbad|]. by apply IHbad.
  - split.
    + intros [Hok _]%Forall_cons. by destruct Hk.
    + intros _. exists s. cbn [graph_from]. fold pool. fold k.
      apply bind_raise. unfold random_sample.
      destruct (length pool <? k) eqn:Hlt; [done|].
      apply Nat.ltb_ge in Hlt. by destruct Hk.
Qed.

Lemma filter_ne_twice (x : str) (l1 l2 l3 : list str) :
  length (filter (fun e => e <> x) (l1 ++ x :: l2 ++ x :: l3)) + 2
  <= length (l1 ++ x :: l2 ++ x :: l3).
Proof.
  rewrite !filter_app, !filter_cons_False by (intros H; by apply H).
  rewrite filter_app, filter_cons_False by (intros H; by apply H).
  rewrite !length_app. simpl. rewrite !length_app. simpl.
  pose proof (length_filter (fun e => e <> x) l1).
  pose proof (length_filter (fun e => e <> x) l2).
  pose proof (length_filter (fun e => e <> x) l3). lia.
Qed.

(** X9: [build_knowledge_graph] returns exactly when every entity leaves
    at least [min 3 (n - 1)] entries different from it in the list, and
    raises ValueError otherwise, as it does for every list of at most four
    entries in which an entity occurs twice.  When it returns, the keys are
    the distinct entities in the order of their first occurrence, and every
    value has [min 3 (n - 1)] entries of the list that differ from its
    key. *)
Theorem build_knowledge_graph_general (entities : list str) (s : state) :
  (Forall (enough_others entities) entities ->
     exists kg s',
       build_knowledge_graph entities s = ([], Ret kg, s')
       /\ kg.*1 = fromkeys entities
       /\ forall e rel, (e, rel) ∈ kg ->
            length rel = min 3 (length entities - 1)
            /\ Forall (fun x => x <> e /\ x ∈ entities) rel)
  /\ (Exists (fun ent => ~ enough_others entities ent) entities ->
        exists s', build_knowledge_graph entities s = ([], Raise ValueError, s'))
  /\ (forall x l1 l2 l3,
        entities = l1 ++ x :: l2 ++ x :: l3 -> length entities <= 4 ->
        exists s', build_knowledge_graph entities s = ([], Raise ValueError, s')).
Proof.
  destruct (graph_from_general entities entities [] s) as [Hok Hbad].
  split; [|split].
  - intros Hall. destruct (Hok Hall) as (kg & s' & Hrun & Hkeys & Hgood).
    exists kg, s'. split; [done|]. split; [done|].
    intros e rel Hin. destruct (Hgood e rel Hin) as [Hold|Hnew]; [|done].
    by apply elem_of_nil in Hold.
  - done.
  - intros x l1 l2 l3 Heq Hlen. apply Hbad. apply Exists_exists. exists x. split.
    + rewrite Heq. apply elem_of_app. right. by left.
    + unfold enough_others. pose proof (filter_ne_twice x l1 l2 l3) as Hf.
      rewrite <- Heq in Hf. lia.
Qed.

Lemma build_knowledge_graph_general_witness :
  exists s',
    build_knowledge_graph [« "Paris" »; « "France" »; « "Paris" »] state0
    = ([], Raise ValueError, s').
Proof.
  apply (proj2 (proj2 (build_knowledge_graph_general
                         [« "Paris" »; « "France" »; « "Paris" »] state0))
           « "Paris" » [] [« "France" »] []).
  - reflexivity.
  - simpl. lia.
Defined.

(** ** Parsing the generated text (lines 93-97) *)

Lemma splitlines_from_line (cur l rest : str) :
  Forall (fun c => is_linebreak c = false) l ->
  splitlines_from false cur (l ++ rest) = splitlines_from false (cur ++ l) rest.
Proof.
  intros Hl. revert cur. induction Hl as [|c l Hc _ IH]; intros cur.
  - by rewrite app_nil_r.
  - simpl. rewrite andb_false_r, Hc, IH. by rewrite <- app_assoc.
Qed.

Lemma splitlines_from_nl (cur rest : str) :
  splitlines_from false cur (nl ++ rest) = cur :: splitlines_from false [] rest.
Proof. reflexivity. Qed.

Lemma splitlines_three (l1 l2 l3 : str) :
  Forall (fun c => is_linebreak c = false) l1 ->
  Forall (fun c => is_linebreak c = false) l2 ->
  Forall (fun c => is_linebreak c = false) l3 ->
  l3 <> [] ->
  splitlines (l1 ++ nl ++ l2 ++ nl ++ l3) = [l1; l2; l3].
Proof.
  intros H1 H2 H3 Hne. unfold splitlines.
  rewrite splitlines_from_line, splitlines_from_nl, app_nil_l by done.
  rewrite splitlines_from_line, splitlines_from_nl, app_nil_l by done.
  rewrite <- (app_nil_r l3) at 1. rewrite splitlines_from_line, app_nil_l by done.
  simpl. by destruct l3.
Qed.

Lemma rstrip_nonspace_last (y : str) (d : ascii) :
  last y = Some d -> isspace d = false -> rstrip y = y.
Proof.
  intros Hlast Hd. unfold rstrip.
  apply last_Some in Hlast as [y' ->]. rewrite reverse_snoc.
  rewrite lstrip_nonspace by done. by rewrite <- reverse_snoc, reverse_involutive.
Qed.

Lemma strip_value_last (x : str) :
  x <> [] -> strip x = x -> exists d, last x = Some d /\ isspace d = false.
Proof.
  intros Hne Hx. destruct (last x) as [d|] eqn:Hlast; [|by apply last_None in Hlast].
  exists d. split; [done|]. apply (strip_last x). by rewrite Hx.
Qed.

(** A line made of a head that starts with a character that is no
    whitespace, and a stripped value, is stripped. *)
Lemma strip_headed (c : ascii) (h x : str) :
  isspace c = false -> x <> [] -> strip x = x -> strip (c :: h ++ x) = c :: h ++ x.
Proof.
  intros Hc Hne Hx. destruct (strip_value_last x Hne Hx) as (d & Hlast & Hd).
  unfold strip. rewrite lstrip_nonspace by done.
  apply (rstrip_nonspace_last _ d); [|done].
  rewrite app_comm_cons, last_app, Hlast. done.
Qed.

Lemma strip_space_value (c : ascii) (x : str) :
  isspace c = true -> strip x = x -> strip (c :: x) = x.
Proof. intros Hc Hx. unfold strip in *. simpl. by rewrite Hc. Qed.

Lemma split_from_skip (sep p cur v : str) :
  split_from sep (length p) cur (p ++ v) = split_from sep 0 cur v.
Proof. induction p as [|c p IH]; [done|]. simpl. apply IH. Qed.

Lemma split_from_absent (sep cur v : str) :
  contains sep v = false -> split_from sep 0 cur v = [cur ++ v].
Proof.
  revert cur. induction v as [|c v IH]; intros cur Hno; simpl.
  - by rewrite app_nil_r.
  - simpl in Hno. apply orb_false_iff in Hno as [Hs Hc]. rewrite Hs.
    rewrite IH by done. by rewrite <- app_assoc.
Qed.

(** [(sep + v).split(sep)] when [sep] does not occur in [v]. *)
Lemma split_headed (sep v : str) :
  sep <> [] -> contains sep v = false -> split sep (sep ++ v) = [[]; v].
Proof.
  intros Hne Hno. unfold split. destruct sep as [|c sep]; [done|].
  cbn [app split_from].
  assert (startswith (c :: sep) (c :: sep ++ v) = true) as ->
    by (apply startswith_spec; by exists v).
  replace (length (c :: sep) - 1) with (length sep) by (simpl; lia).
  rewrite split_from_skip.
  by rewrite split_from_absent.
Qed.

Lemma contains_headed (m x : str) : contains m (m ++ x) = true.
Proof. apply contains_spec. by exists [], x. Qed.

(** A marker cannot occur across a head none of whose characters is the
    first character of the marker. *)
Lemma contains_fresh_head (c : ascii) (m h x : str) :
  head m = Some c -> c ∉ h -> contains m (h ++ x) = contains m x.
Proof.
  intros Hm. destruct m as [|c' m]; [done|]. injection Hm as ->.
  induction h as [|d h IH]; intros Hc; [done|].
  apply not_elem_of_cons in Hc as [Hne Hc]. cbn [app contains startswith].
  rewrite bool_decide_eq_false_2 by done. simpl. by apply IH.
Qed.

(** A marker without the character [c] that occurs in [x ++ c :: y] occurs
    in [x] or in [y]. *)
Lemma contains_separated (m x y : str) (c : ascii) :
  m <> [] -> c ∉ m ->
  contains m x = false -> contains m y = false ->
  contains m (x ++ c :: y) = false.
Proof.
  intros Hne Hc Hx Hy. apply not_true_is_false. intros Hin.
  apply contains_spec in Hin as (pre & post & Heq).
  apply app_eq_inv in Heq as [(k & -> & Hk)|(k & -> & Hk)].
  - apply app_eq_inv in Hk as [(k' & -> & Hk')|(k' & -> & Hk')].
    + destruct k' as [|d k'].
      * rewrite app_nil_r in Hx.
        rewrite (proj2 (contains_spec k (pre ++ k))) in Hx; [done|].
        exists pre, []. by rewrite app_nil_r.
      * injection Hk' as <- _. apply Hc. apply elem_of_app. right. by left.
    + rewrite (proj2 (contains_spec m (pre ++ m ++ k'))) in Hx; [done|]. by exists pre, k'.
  - destruct k as [|d k].
    + simpl in Hk. destruct m as [|d m]; [done|]. injection Hk as <- _.
      apply Hc. by left.
    + injection Hk as <- ->.
      rewrite (proj2 (contains_spec m (k ++ m ++ post))) in Hy; [done|]. by exists k, post.
Qed.

Lemma split_char_step (c : ascii) (cur x rest : str) :
  c ∉ x ->
  split_from [c] 0 cur (x ++ c :: rest) = (cur ++ x) :: split_from [c] 0 [] rest.
Proof.
  revert cur. induction x as [|d x IH]; intros cur Hc.
  - cbn [app split_from startswith]. rewrite bool_decide_eq_true_2 by done.
    by rewrite app_nil_r.
  - apply not_elem_of_cons in Hc as [Hne Hc]. cbn [app split_from startswith].
    rewrite bool_decide_eq_false_2 by done. cbn [andb].
    rewrite IH by done. by rewrite <- app_assoc.
Qed.

Lemma split_char_end (c : ascii) (cur x : str) :
  c ∉ x -> split_from [c] 0 cur x = [cur ++ x].
Proof.
  revert cur. induction x as [|d x IH]; intros cur Hc.
  - by rewrite app_nil_r.
  - apply not_elem_of_cons in Hc as [Hne Hc]. cbn [split_from startswith].
    rewrite bool_decide_eq_false_2 by done. cbn [andb].
    rewrite IH by done. by rewrite <- app_assoc.
Qed.

(** [", ".join(ds).split(",")]. *)
Lemma split_comma_join (ds : list str) (cur : str) :
  Forall (fun d => ","%char ∉ d) ds ->
  split_from « "," » 0 cur (join « ", " » ds)
  = match ds with
    | [] => [cur]
    | d :: rest => (cur ++ d) :: map (fun x => " "%char :: x) rest
    end.
Proof.
  intros Hds. revert cur. induction Hds as [|d ds Hd Hds IH]; intros cur; [done|].
  destruct ds as [|d' ds].
  - simpl. by apply (split_char_end ","%char).
  - change (join « ", " » (d :: d' :: ds))
      with (d ++ ","%char :: " "%char :: join « ", " » (d' :: ds)).
    rewrite (split_char_step ","%char) by done. f_equal.
    cbn [split_from startswith]. rewrite bool_decide_eq_false_2 by done. cbn [andb].
    by rewrite IH.
Qed.

Lemma join_cons_cons (sep d d' : str) (ds : list str) :
  join sep (d :: d' :: ds) = d ++ sep ++ join sep (d' :: ds).
Proof. reflexivity. Qed.

Lemma join_plain (ds : list str) :
  ds <> [] -> Forall plain_item ds ->
  join « ", " » ds <> []
  /\ strip (join « ", " » ds) = join « ", " » ds
  /\ Forall (fun c => is_linebreak c = false) (join « ", " » ds)
  /\ contains « "Distractors:" » (join « ", " » ds) = false.
Proof.
  intros Hne Hds. induction Hds as [|d ds [(Hd1 & Hd2 & Hd3 & _ & _ & Hd4) Hd5] Hds IH];
    [done|].
  destruct ds as [|d' ds]; [done|].
  destruct IH as (IH1 & IH2 & IH3 & IH4); [done|].
  rewrite join_cons_cons. set (tl := join « ", " » (d' :: ds)) in *.
  destruct d as [|c d]; [done|].
  assert (isspace c = false) as Hc by (apply (strip_head (c :: d)); by rewrite Hd2).
  split; [done|]. split; [|split].
  - rewrite app_assoc.
    change (((c :: d) ++ « ", " ») ++ tl) with (c :: (d ++ « ", " ») ++ tl).
    by apply strip_headed.
  - apply Forall_app. split; [done|]. apply Forall_app. split; [|done].
    by repeat constructor.
  - change ((c :: d) ++ « ", " » ++ tl) with ((c :: d) ++ ","%char :: (« " " » ++ tl)).
    apply contains_separated; [done| |done|].
    + intros H. repeat (apply elem_of_cons in H as [H|H]; [discriminate H|]).
      by apply elem_of_nil in H.
    + rewrite (contains_fresh_head "D"%char); [done|done|].
      intros H. repeat (apply elem_of_cons in H as [H|H]; [discriminate H|]).
      by apply elem_of_nil in H.
Qed.

Lemma stripped_nonempty_plain (xs : list str) :
  Forall (fun x => x <> [] /\ strip x = x) xs -> stripped_nonempty xs = xs.
Proof.
  intros Hxs. unfold stripped_nonempty.
  induction Hxs as [|x xs [Hne Hx] _ IH]; [done|].
  rewrite filter_cons_True by (by rewrite Hx). rewrite fmap_cons, Hx. by f_equal.
Qed.

Lemma stripped_nonempty_spaced (d : str) (rest : list str) :
  Forall (fun x => x <> [] /\ strip x = x) (d :: rest) ->
  stripped_nonempty (d :: map (fun x => " "%char :: x) rest) = d :: rest.
Proof.
  intros [[Hne Hd] Hrest]%Forall_cons. unfold stripped_nonempty.
  rewrite filter_cons_True by (by rewrite Hd). rewrite fmap_cons, Hd. f_equal.
  induction Hrest as [|x xs [Hxne Hx] _ IH]; [done|].
  rewrite fmap_cons.
  rewrite filter_cons_True by (by rewrite strip_space_value).
  rewrite fmap_cons, strip_space_value by done. by f_equal.
Qed.

Ltac fresh_char :=
  let H := fresh in
  intros H; repeat (apply elem_of_cons in H as [H|H]; [discriminate H|]);
  by apply elem_of_nil in H.

Lemma response_lines (q a : str) (ds : list str) :
  plain_value q -> plain_value a -> ds <> [] -> Forall plain_item ds ->
  parsed_lines (response q a ds)
  = [« "Question: " » ++ q; « "Answer: " » ++ a;
     « "Distractors: " » ++ join « ", " » ds].
Proof.
  intros (Hq1 & Hq2 & Hq3 & _) (Ha1 & Ha2 & Ha3 & _) Hne Hds.
  destruct (join_plain ds Hne Hds) as (Hj1 & Hj2 & Hj3 & _).
  unfold parsed_lines.
  assert (response q a ds
          = (« "Question: " » ++ q) ++ nl ++ (« "Answer: " » ++ a) ++ nl
            ++ (« "Distractors: " » ++ join « ", " » ds)) as ->
    by (unfold response; by rewrite <- !app_assoc).
  rewrite splitlines_three.
  - apply stripped_nonempty_plain.
    apply Forall_cons. split.
    { split; [discriminate|].
      change (« "Question: " » ++ q) with ("Q"%char :: « "uestion: " » ++ q).
      by apply strip_headed. }
    apply Forall_cons. split.
    { split; [discriminate|].
      change (« "Answer: " » ++ a) with ("A"%char :: « "nswer: " » ++ a).
      by apply strip_headed. }
    apply Forall_cons. split; [|apply Forall_nil_2].
    split; [discriminate|].
    change (« "Distractors: " » ++ join « ", " » ds)
      with ("D"%char :: « "istractors: " » ++ join « ", " » ds).
    by apply strip_headed.
  - apply Forall_app. split; [by repeat constructor|done].
  - apply Forall_app. split; [by repeat constructor|done].
  - apply Forall_app. split; [by repeat constructor|done].
  - done.
Qed.

Lemma contains_cons_fresh (c d : ascii) (m x : str) :
  head m = Some c -> c <> d -> contains m (d :: x) = contains m x.
Proof.
  intros Hm Hne. apply (contains_fresh_head c m [d] x Hm).
  by intros ->%list_elem_of_singleton.
Qed.

Lemma field_headed (marker v : str) (lines : list str) (default : str) :
  marker <> [] -> contains marker v = false ->
  field marker ((marker ++ v) :: lines) default = strip v.
Proof.
  intros Hne Hv. unfold field.
  rewrite filter_cons_True by (rewrite contains_headed; done).
  by rewrite split_headed.
Qed.

Lemma field_skip (marker l : str) (lines : list str) (default : str) :
  contains marker l = false ->
  field marker (l :: lines) default = field marker lines default.
Proof.
  intros Hl. unfold field. rewrite filter_cons_False; [done|].
  rewrite Hl. by intros [].
Qed.

(** A response in the requested format is parsed back into its fields. *)
Lemma parse_response_fields (q a : str) (ds : list str) (entity : str) :
  plain_value q -> plain_value a -> ds <> [] -> Forall plain_item ds ->
  parsed_question (response q a ds) entity = q
  /\ parsed_answer (response q a ds) entity = a
  /\ parsed_distractors (response q a ds) = ds.
Proof.
  intros Hq Ha Hne Hds.
  unfold parsed_question, parsed_answer, parsed_distractors.
  rewrite (response_lines q a ds Hq Ha Hne Hds).
  destruct (join_plain ds Hne Hds) as (Hj1 & Hj2 & _ & Hj4).
  destruct Hq as (Hq1 & Hq2 & _ & HqQ & HqA & HqD).
  destruct Ha as (Ha1 & Ha2 & _ & HaQ & HaA & HaD).
  split; [|split].
  - change (« "Question: " » ++ q) with (« "Question:" » ++ " "%char :: q).
    rewrite field_headed; [by apply strip_space_value|done|].
    by rewrite (contains_cons_fresh "Q"%char " "%char « "Question:" » q eq_refl).
  - rewrite field_skip
      by (by rewrite (contains_fresh_head "A"%char « "Answer:" » « "Question: " » q eq_refl
                        ltac:(fresh_char))).
    change (« "Answer: " » ++ a) with (« "Answer:" » ++ " "%char :: a).
    rewrite field_headed; [by apply strip_space_value|done|].
    by rewrite (contains_cons_fresh "A"%char " "%char « "Answer:" » a eq_refl).
  - rewrite field_skip
      by (by rewrite (contains_fresh_head "D"%char « "Distractors:" » « "Question: " » q eq_refl
                        ltac:(fresh_char))).
    rewrite field_skip
      by (by rewrite (contains_fresh_head "D"%char « "Distractors:" » « "Answer: " » a eq_refl
                        ltac:(fresh_char))).
    change (« "Distractors: " » ++ join « ", " » ds)
      with (« "Distractors:" » ++ " "%char :: join « ", " » ds).
    rewrite field_headed; [|done|
      by rewrite (contains_cons_fresh "D"%char " "%char « "Distractors:" » _ eq_refl)].
    rewrite strip_space_value by done. unfold split.
    rewrite split_comma_join.
    + destruct ds as [|d rest]; [done|]. rewrite app_nil_l.
      apply stripped_nonempty_spaced.
      eapply Forall_impl; [exact Hds|]. by intros x [(? & ? & _) _].
    + eapply Forall_impl; [exact Hds|]. by intros x [_ ?].
Qed.

(** X10: a generated text in the requested format, with a question, an
    answer and at least one distractor that are plain values, is parsed
    back into exactly these: the question, the answer and the list of
    distractors. *)
Theorem parse_response (q a : str) (ds : list str) (entity : str) :
  plain_value q -> plain_value a -> ds <> [] -> Forall plain_item ds ->
  parsed_question (response q a ds) entity = q
  /\ parsed_answer (response q a ds) entity = a
  /\ parsed_distractors (response q a ds) = ds.
Proof. apply parse_response_fields. Qed.

Lemma parse_response_witness :
  parsed_question
    (response « "What is the capital of France?" » « "Paris" »
       [« "Lyon" »; « "Nice" »; « "Lille" »]) « "France" »
  = « "What is the capital of France?" »
  /\ parsed_answer
       (response « "What is the capital of France?" » « "Paris" »
          [« "Lyon" »; « "Nice" »; « "Lille" »]) « "France" »
     = « "Paris" »
  /\ parsed_distractors
       (response « "What is the capital of France?" » « "Paris" »
          [« "Lyon" »; « "Nice" »; « "Lille" »])
     = [« "Lyon" »; « "Nice" »; « "Lille" »].
Proof.
  apply parse_response.
  - repeat split; try discriminate; try reflexivity. by repeat constructor.
  - repeat split; try discriminate; try reflexivity. by repeat constructor.
  - discriminate.
  - repeat (apply Forall_cons; split;
            [split; [repeat split; try discriminate; try reflexivity;
                     by repeat constructor | fresh_char]|]).
    apply Forall_nil_2.
Defined.

(** ** The options of a generated question (lines 97-108) *)

Lemma quiz_body_options (generate : str -> outcome str) (entity material gen : str)
    (s : state) :
  generate (prompt material entity) = Ret gen ->
  3 <= length (parsed_distractors gen)
  \/ other_words material (parsed_answer gen entity) <> [] ->
  exists extra all_options i q,
    quiz_body generate entity material s
    = ([], Ret q, drawn 3 (drawn (3 - length (parsed_distractors gen)) s))
    /\ length extra = 3 - length (parsed_distractors gen)
    /\ Forall (fun w => w ∈ other_words material (parsed_answer gen entity)) extra
    /\ all_options
       ≡ₚ parsed_answer gen entity :: take 3 (parsed_distractors gen ++ extra)
    /\ question q = parsed_question gen entity
    /\ options q = labelled all_options
    /\ find_index (parsed_answer gen entity) all_options = Some i
    /\ letters !! i = Some (answer q).
Proof.
  intros Hgen Hcase. unfold quiz_body. rewrite Hgen.
  rewrite (bind_ret _ _ s s gen eq_refl).
  fold (parsed_answer gen entity). fold (parsed_distractors gen).
  fold (parsed_question gen entity).
  set (a := parsed_answer gen entity) in *.
  set (ds := parsed_distractors gen) in *.
  assert (exists extra,
            pad_distractors 3 (other_words material a) ds s
            = ([], Ret (ds ++ extra), drawn (3 - length ds) s)
            /\ 3 <= length (ds ++ extra)
            /\ length extra = 3 - length ds
            /\ Forall (fun w => w ∈ other_words material a) extra)
    as (extra & Hpad & Hlen & Hextra & Hall).
  { destruct (decide (length ds < 3)) as [Hlt|Hge].
    - destruct Hcase as [?|Hne]; [lia|].
      destruct (proj2 (proj2 (pad_distractors_spec _ ds s)) Hlt Hne)
        as (extra & Hrun & Hl & Hall).
      exists extra. split; [done|]. rewrite length_app in Hl.
      split; [rewrite length_app; lia|]. split; [lia|done].
    - exists []. rewrite app_nil_r.
      replace (3 - length ds) with 0 by lia. rewrite drawn_0.
      split; [|split; [lia|split; [done|done]]].
      apply (proj1 (pad_distractors_spec _ ds s)). lia. }
  rewrite (bind_ret _ _ _ _ _ Hpad).
  destruct (random_shuffle_spec (a :: take 3 (ds ++ extra)) (drawn (3 - length ds) s))
    as (all_options & Hshuffle & Hperm).
  assert (length (take 3 (ds ++ extra)) = 3) as Hlen3 by (rewrite length_take; lia).
  cbn [length] in Hshuffle. rewrite Hlen3 in Hshuffle. cbn [Nat.sub] in Hshuffle.
  rewrite (bind_ret _ _ _ _ _ Hshuffle).
  assert (length all_options = 4) as Hlen4 by (rewrite Hperm; simpl; by rewrite Hlen3).
  destruct (find_index_elem_of a all_options) as [i Hi]; [rewrite Hperm; by left|].
  destruct (well_formed_at all_options i a Hlen4 Hi) as (letter & Hletter & _).
  exists extra, all_options, i.
  destruct all_options as [|o0 [|o1 [|o2 [|o3 [|? ?]]]]]; try done.
  rewrite labelled_four.
  rewrite (bind_ret _ _ _ _ (labelled [o0; o1; o2; o3]) eq_refl).
  unfold index. rewrite Hi.
  rewrite (bind_ret _ _ _ _ i eq_refl). rewrite Hletter.
  rewrite (bind_ret _ _ _ _ letter eq_refl).
  eexists. split; [reflexivity|].
  repeat (split; [done|]). simpl. unfold getitem in Hletter.
  destruct (letters !! i); by simplify_eq.
Qed.

(** X11: when the generator returns a text and either three distractors
    were parsed or the material has a word that differs from the answer
    ignoring case, the question is built from the parsed pieces: its text
    is the parsed question; its options are, in shuffled order and
    labelled, the parsed answer and the first three of the parsed
    distractors followed by as many words of the material, each different
    from the answer ignoring case, as are missing; and its answer is the
    letter of the first option equal to the parsed answer.  It makes one
    draw per missing distractor and three for the shuffle. *)
Theorem generate_quiz_question_options (G : Globals)
    (generate : str -> outcome str) (entity material gen : str) (s : state) :
  text_generator G = Some generate ->
  generate (prompt material entity) = Ret gen ->
  3 <= length (parsed_distractors gen)
  \/ other_words material (parsed_answer gen entity) <> [] ->
  exists extra all_options i q,
    generate_quiz_question G entity material s
    = ([], Ret q, drawn 3 (drawn (3 - length (parsed_distractors gen)) s))
    /\ length extra = 3 - length (parsed_distractors gen)
    /\ Forall (fun w => w ∈ split_ws material
                        /\ lower w <> lower (parsed_answer gen entity)) extra
    /\ all_options
       ≡ₚ parsed_answer gen entity :: take 3 (parsed_distractors gen ++ extra)
    /\ question q = parsed_question gen entity
    /\ options q = labelled all_options
    /\ find_index (parsed_answer gen entity) all_options = Some i
    /\ letters !! i = Some (answer q).
Proof.
  intros HG Hgen Hcase.
  destruct (quiz_body_options generate entity material gen s Hgen Hcase)
    as (extra & all_options & i & q & Hrun & Hlen & Hall & Hperm & Hq & Ho & Hi & Hl).
  exists extra, all_options, i, q. unfold generate_quiz_question. rewrite HG.
  rewrite (try_except_ret _ _ _ _ _ _ Hrun).
  split; [done|]. split; [done|]. split; [|done].
  eapply Forall_impl; [exact Hall|]. intros w Hw.
  apply list_elem_of_filter in Hw. tauto.
Qed.

Lemma generate_quiz_question_options_witness :
  exists extra all_options q,
    generate_quiz_question chatty_model « "Paris" »
      « "Paris is the capital of France" » state0
    = ([], Ret q, drawn 3 (drawn 3 state0))
    /\ length extra = 3
    /\ all_options ≡ₚ « "Paris" » :: take 3 extra
    /\ question q = « "Paris" »
    /\ options q = labelled all_options.
Proof.
  destruct (generate_quiz_question_options chatty_model (fun _ => Ret « "hello" »)
              « "Paris" » « "Paris is the capital of France" » « "hello" » state0
              eq_refl eq_refl)
    as (extra & all_options & i & q & Hrun & Hlen & _ & Hperm & Hq & Ho & _).
  - right. vm_compute. discriminate.
  - exists extra, all_options, q. repeat split; assumption.
Defined.

(** X12: when the generator answers in the requested format with plain
    values and at least three distractors, the question shown is the
    question of the response and its options are the answer and the first
    three distractors of the response, shuffled; no word of the material
    is used, and the only draws are the three of the shuffle. *)
Theorem generate_quiz_question_from_response (G : Globals)
    (generate : str -> outcome str) (entity material q a : str)
    (ds : list str) (s : state) :
  text_generator G = Some generate ->
  generate (prompt material entity) = Ret (response q a ds) ->
  plain_value q -> plain_value a -> Forall plain_item ds -> 3 <= length ds ->
  exists all_options i result,
    generate_quiz_question G entity material s = ([], Ret result, drawn 3 s)
    /\ question result = q
    /\ all_options ≡ₚ a :: take 3 ds
    /\ options result = labelled all_options
    /\ find_index a all_options = Some i
    /\ letters !! i = Some (answer result).
Proof.
  intros HG Hgen Hq Ha Hds Hlen.
  assert (ds <> []) as Hne by (intros ->; simpl in Hlen; lia).
  destruct (parse_response_fields q a ds entity Hq Ha Hne Hds) as (HQ & HA & HD).
  destruct (quiz_body_options generate entity material _ s Hgen)
    as (extra & all_options & i & result & Hrun & Hex & _ & Hperm & Hqq & Ho & Hi & Hl).
  { left. by rewrite HD. }
  rewrite HD, HA, ?HQ in *.
  exists all_options, i, result. unfold generate_quiz_question. rewrite HG.
  rewrite (try_except_ret _ _ _ _ _ _ Hrun).
  replace (3 - length ds) with 0 by lia. rewrite drawn_0.
  split; [done|]. split; [by rewrite Hqq|]. split; [|done].
  rewrite Hperm. replace (3 - length ds) with 0 in Hex by lia.
  destruct extra; [|done]. by rewrite app_nil_r.
Qed.

Lemma generate_quiz_question_from_response_witness :
  exists all_options result,
    generate_quiz_question geography_model « "France" »
      « "Paris is the capital of France" » state0
    = ([], Ret result, drawn 3 state0)
    /\ question result = « "What is the capital of France?" »
    /\ all_options ≡ₚ [« "Paris" »; « "Lyon" »; « "Nice" »; « "Lille" »]
    /\ options result = labelled all_options.
Proof.
  destruct (generate_quiz_question_from_response geography_model
              (fun _ => Ret (response « "What is the capital of France?" » « "Paris" »
                               [« "Lyon" »; « "Nice" »; « "Lille" »; « "Brest" »]))
              « "France" » « "Paris is the capital of France" »
              « "What is the capital of France?" » « "Paris" »
              [« "Lyon" »; « "Nice" »; « "Lille" »; « "Brest" »] state0
              eq_refl eq_refl)
    as (all_options & i & result & Hrun & Hq & Hperm & Ho & _).
  - repeat split; try discriminate; try reflexivity. by repeat constructor.
  - repeat split; try discriminate; try reflexivity. by repeat constructor.
  - repeat (apply Forall_cons; split;
            [split; [repeat split; try discriminate; try reflexivity;
                     by repeat constructor | fresh_char]|]).
    apply Forall_nil_2.
  - simpl. lia.
  - exists all_options, result. repeat split; assumption.
Defined.

(** ** The entities of a text (lines 64-72) *)

Lemma add_keys_prefix (l acc : list str) : acc `prefix_of` fold_left add_key l acc.
Proof.
  revert acc. induction l as [|k l IH]; intros acc; [done|]. simpl.
  etrans; [|apply IH]. unfold add_key. destruct (decide (k ∈ acc)); [done|].
  by apply prefix_app_r.
Qed.

Lemma add_keys_length (l acc : list str) :
  length (fold_left add_key l acc) <= length acc + length l.
Proof.
  revert acc. induction l as [|k l IH]; intros acc; simpl; [lia|].
  etrans; [apply IH|]. unfold add_key. destruct (decide (k ∈ acc)); [lia|].
  rewrite length_app. simpl. lia.
Qed.

Lemma fromkeys_app (l1 l2 : list str) :
  fromkeys (l1 ++ l2) = fold_left add_key l2 (fromkeys l1).
Proof. unfold fromkeys. apply fold_left_app. Qed.

Lemma pick_by_all {A} (draws : list nat) (pool : list A) :
  valid_draws (length pool) draws -> length draws = length pool ->
  pick_by draws pool ≡ₚ pool.
Proof.
  revert pool. induction draws as [|d draws IH]; intros pool Hv Hlen.
  - by destruct pool.
  - destruct Hv as [Hd Hv]. simpl.
    destruct (lookup_lt_is_Some_2 pool d Hd) as [x Hx]. rewrite Hx.
    etrans; [|symmetry; apply (delete_Permutation pool d x Hx)]. constructor.
    apply IH; rewrite length_delete by eauto; [done|]. simpl in Hlen. lia.
Qed.

(** X13: whenever the NER call does not fail, the distinct NER entities
    come first in the result, in their order; every other entity is a word
    of more than three characters of the text, and such words are added
    only when fewer than five NER entities were found, at most ten of
    them.  When they are added and the text has at most ten such words,
    every one of them is an entity. *)
Theorem extract_entities_keeps_ner (G : Globals) (text : str) (ents : list str)
    (s : state) :
  ner_yields G text ents ->
  exists result s',
    extract_entities G text s = ([], Ret result, s')
    /\ fromkeys ents `prefix_of` result
    /\ (forall e, e ∈ result ->
          e ∈ ents \/ (length ents < 5 /\ e ∈ split_ws text /\ 3 < length e))
    /\ length result <= length (fromkeys ents) + 10
    /\ (5 <= length ents -> result = fromkeys ents)
    /\ (length ents < 5 -> length (long_words text) <= 10 ->
        forall w, w ∈ split_ws text -> 3 < length w -> w ∈ result).
Proof.
  intros Hner.
  destruct (extract_entities_eq G text ents s Hner) as (combined & s' & Hpad & Hrun).
  exists (fromkeys combined), s'. split; [done|].
  rewrite pad_entities_eq in Hpad. cbv zeta in Hpad.
  destruct (fromkeys_first_seen combined) as (_ & Hel & _).
  set (words := long_words text) in *.
  remember (min 10 (length words)) as m eqn:Hm.
  set (padding := pick_by (draws_of (rng s) (length words) m) words) in *.
  destruct (length ents <? 5) eqn:Hlt.
  - apply Nat.ltb_lt in Hlt. injection Hpad as <- <-.
    assert (valid_draws (length words) (draws_of (rng s) (length words) m)) as Hv
      by (apply draws_of_valid; lia).
    assert (length padding = m) as Hlen
      by (unfold padding; rewrite pick_by_length by done; apply draws_of_length).
    rewrite fromkeys_app.
    split; [apply add_keys_prefix|]. split; [|split; [|split]].
    + intros e He. rewrite <- fromkeys_app in He. apply Hel in He.
      apply elem_of_app in He as [He|He]; [by left|]. right.
      apply pick_by_elem_of, list_elem_of_filter in He. tauto.
    + etrans; [apply add_keys_length|]. lia.
    + lia.
    + intros _ Hfew w Hw Hlong. rewrite <- fromkeys_app. apply Hel.
      apply elem_of_app. right.
      assert (padding ≡ₚ words) as ->.
      { apply pick_by_all; [done|]. rewrite draws_of_length. lia. }
      apply list_elem_of_filter. done.
  - apply Nat.ltb_ge in Hlt. injection Hpad as <- <-.
    split; [done|]. split; [|split; [lia|split; [done|lia]]].
    intros e He. left. by apply (fromkeys_first_seen ents).
Qed.

Lemma extract_entities_keeps_ner_witness :
  exists result s',
    extract_entities no_models « "alpha beta alpha gamma to beta" » state0
    = ([], Ret result, s')
    /\ « "gamma" » ∈ result.
Proof.
  destruct (extract_entities_keeps_ner no_models « "alpha beta alpha gamma to beta" »
              [] state0) as (result & s' & Hrun & _ & _ & _ & _ & Hall).
  - left. split; reflexivity.
  - exists result, s'. split; [exact Hrun|]. apply Hall.
    + simpl. lia.
    + vm_compute. lia.
    + apply (bool_decide_unpack _). vm_compute. exact I.
    + vm_compute. lia.
Defined.

Lemma mapM_placeholder (G : Globals) (material : str) (l : list str) (s : state) :
  text_generator G = None ->
  mapM (fun ent => generate_quiz_question G ent material) l s
  = ([], Ret (map placeholder l), s).
Proof.
  intros HG. induction l as [|ent l IH]; [done|]. cbn [mapM].
  rewrite (bind_ret _ _ s s (placeholder ent))
    by (unfold generate_quiz_question; by rewrite HG).
  by rewrite (bind_ret _ _ _ _ _ IH).
Qed.

(** X14: without a generator the quiz consists of the placeholder of each
    of the first ten entities: the question text is the entity itself, the
    options are Yes, No, Maybe and N/A, and the expected answer is always
    A.  Making the questions then uses no draw. *)
Theorem make_quiz_without_generator (G : Globals) (text_data : str)
    (ents : list str) (s : state) :
  text_generator G = None -> ner_yields G text_data ents ->
  exists entities kg s',
    make_quiz G text_data s
    = ([], Ret (entities, kg, map placeholder (take 10 entities)), s')
    /\ (exists s0, extract_entities G text_data s = ([], Ret entities, s0)
                   /\ build_knowledge_graph entities s0 = ([], Ret kg, s')).
Proof.
  intros HG Hner.
  destruct (make_quiz_returns G text_data ents s Hner)
    as (kg & qs & s0 & s1 & s2 & combined & Hpad & Hkg & Hqs & Hrun & _).
  rewrite mapM_placeholder in Hqs by done. injection Hqs as <- <-.
  exists (fromkeys combined), kg, s1. split; [done|].
  exists s0. split; [|done].
  destruct (extract_entities_eq G text_data ents s Hner) as (c' & s0' & Hpad' & Hents).
  rewrite Hpad in Hpad'. by injection Hpad' as <- <-.
Qed.

Lemma make_quiz_without_generator_witness :
  exists entities kg s',
    make_quiz no_models « "alpha beta alpha gamma to beta" » state0
    = ([], Ret (entities, kg, map placeholder (take 10 entities)), s').
Proof.
  destruct (make_quiz_without_generator no_models « "alpha beta alpha gamma to beta" »
              [] state0 eq_refl) as (entities & kg & s' & Hrun & _).
  - left. split; reflexivity.
  - exists entities, kg, s'. exact Hrun.
Defined.

(** ** The decoding branches (lines 30-56) *)

Lemma omapM_all_ret {A} (xs : list A) :
  omapM (fun p => p) (map Ret xs) = Ret xs.
Proof. induction xs as [|x xs IH]; [done|]. simpl. by rewrite IH. Qed.

Lemma page_text_decodes (w : World) (page : Page) (t : str) :
  page_decodes w page t -> page_text w page = Ret t.
Proof.
  unfold page_text.
  intros [[-> Hne]|[[-> | ->] (img & -> & Hocr)]]; simpl; [by destruct t|done|done].
Qed.

Lemma pages_text_decode (w : World) (pages : list Page) (texts : list str) :
  Forall2 (page_decodes w) pages texts -> omapM (page_text w) pages = Ret texts.
Proof.
  induction 1 as [|page t pages texts Hp _ IH]; [done|].
  simpl. by rewrite (page_text_decodes w page t Hp), IH.
Qed.

Lemma shapes_text_ok (shapes : list Shape) :
  Forall (fun sh => forall e, sh <> Some (Raise e)) shapes ->
  shapes_text shapes = Ret (shape_texts shapes).
Proof.
  induction 1 as [|sh shapes Hsh _ IH]; [done|].
  destruct sh as [[t|e]|]; simpl.
  - by rewrite IH.
  - by destruct (Hsh e).
  - done.
Qed.

(** X15: each handled extension reads the file through its own library,
    and when that succeeds the result is the stripped text: the content of
    a .txt or .java file; the paragraphs of a .docx joined by newlines; the
    pages of a .pdf joined by newlines, each page giving its text layer or,
    when it has none, the OCR of its image; the texts of the shapes of a
    .pptx that have one, in slide and shape order, joined by newlines; the
    OCR of a .png, .jpg or .jpeg image.  Nothing is printed. *)
Theorem extract_text_dispatch (w : World) (filepath : str) (s : state) :
  (file_ext filepath ∈ [« ".txt" »; « ".java" »] ->
     forall t, read_text w filepath = Ret t ->
     extract_text_from_file w filepath s = ([], Ret (strip t), s))
  /\ (file_ext filepath = « ".docx" » ->
        forall texts, docx_paragraphs w filepath = Ret (map Ret texts) ->
        extract_text_from_file w filepath s = ([], Ret (strip (join nl texts)), s))
  /\ (file_ext filepath = « ".pdf" » ->
        forall pages texts,
          pdf_pages w filepath = Ret pages ->
          Forall2 (page_decodes w) pages texts ->
          extract_text_from_file w filepath s = ([], Ret (strip (join nl texts)), s))
  /\ (file_ext filepath = « ".pptx" » ->
        forall slides,
          pptx_slides w filepath = Ret slides ->
          Forall (fun sh => forall e, sh <> Some (Raise e)) (concat slides) ->
          extract_text_from_file w filepath s
          = ([], Ret (strip (join nl (shape_texts (concat slides)))), s))
  /\ (file_ext filepath ∈ [« ".png" »; « ".jpg" »; « ".jpeg" »] ->
        forall img t,
          image_open w filepath = Ret img -> image_to_string w img = Ret t ->
          extract_text_from_file w filepath s = ([], Ret (strip t), s)).
Proof.
  rewrite extract_text_from_file_eq. unfold decode.
  split; [|split; [|split; [|split]]].
  - intros Hext t Ht. by rewrite bool_decide_eq_true_2, Ht.
  - intros -> texts Ht. vm_compute bool_decide. cbv iota.
    rewrite Ht. simpl. by rewrite omapM_all_ret.
  - intros -> pages texts Hp Hd. vm_compute bool_decide. cbv iota.
    rewrite Hp. simpl. by rewrite (pages_text_decode w pages texts Hd).
  - intros -> slides Hs Hok. vm_compute bool_decide. cbv iota.
    rewrite Hs. simpl. by rewrite shapes_text_ok.
  - intros Hext img t Hi Ht.
    repeat (apply elem_of_cons in Hext as [->|Hext];
            [vm_compute bool_decide; cbv iota; rewrite Hi; simpl; by rewrite Ht|]).
    by apply elem_of_nil in Hext.
Qed.

Lemma extract_text_dispatch_witness :
  extract_text_from_file
    {| path_exists := fun _ => true;
       read_text := fun _ => Raise (LibraryError « "open" »);
       docx_paragraphs := fun _ => Raise (LibraryError « "docx" »);
       pdf_pages := fun _ =>
         Ret [ {| extract_text := Ret (Some « "page one " »); to_image := Ret 0 |};
               {| extract_text := Ret None; to_image := Ret 1 |} ];
       pptx_slides := fun _ => Raise (LibraryError « "pptx" »);
       image_open := fun _ => Raise (LibraryError « "PIL" »);
       image_to_string := fun _ => Ret « " scanned two " » |}
    « "notes.PDF" » state0
  = ([], Ret (strip (join nl [« "page one " »; « " scanned two " »])), state0).
Proof.
  eapply (proj1 (proj2 (proj2 (extract_text_dispatch _ « "notes.PDF" » state0)))).
  - reflexivity.
  - reflexivity.
  - constructor; [left; split; [reflexivity|discriminate]|].
    constructor; [|constructor].
    right. split; [by left|]. exists 1. split; reflexivity.
Defined.

(** ** The extension of a path (line 27) *)

Lemma rfind_from_app (c : ascii) (s1 s2 : str) (i found : Z) :
  rfind_from c (s1 ++ s2) i found
  = rfind_from c s2 (i + Z.of_nat (length s1)) (rfind_from c s1 i found).
Proof.
  revert i found. induction s1 as [|d s1 IH]; intros i found.
  - simpl. by rewrite Z.add_0_r.
  - cbn [app rfind_from length]. rewrite IH. f_equal. lia.
Qed.

Lemma rfind_from_absent (c : ascii) (s : str) (i found : Z) :
  c ∉ s -> rfind_from c s i found = found.
Proof.
  revert i found. induction s as [|d s IH]; intros i found Hc; [done|].
  apply not_elem_of_cons in Hc as [Hne Hc]. simpl.
  rewrite decide_False by done. by apply IH.
Qed.

Lemma rfind_from_bound (c : ascii) (s : str) (i found : Z) :
  (found < i)%Z -> (rfind_from c s i found < i + Z.of_nat (length s))%Z.
Proof.
  revert i found. induction s as [|d s IH]; intros i found Hlt.
  - simpl. lia.
  - cbn [rfind_from length]. destruct (decide (d = c)).
    + pose proof (IH (i + 1)%Z i ltac:(lia)). lia.
    + pose proof (IH (i + 1)%Z found ltac:(lia)). lia.
Qed.

Lemma rfind_last (c : ascii) (pre post : str) :
  c ∉ post -> rfind c (pre ++ c :: post) = Z.of_nat (length pre).
Proof.
  intros Hc. unfold rfind. rewrite rfind_from_app. simpl.
  rewrite decide_True by done. by apply rfind_from_absent.
Qed.

Lemma rfind_sep (dir rest : str) :
  dir = [] \/ (exists d, dir = d ++ ["/"%char]) -> "/"%char ∉ rest ->
  rfind "/" (dir ++ rest) = (Z.of_nat (length dir) - 1)%Z.
Proof.
  intros [->|[d ->]] Hrest.
  - simpl. unfold rfind. by apply rfind_from_absent.
  - rewrite <- app_assoc. simpl. rewrite rfind_last by done.
    rewrite length_app. simpl. lia.
Qed.

(** X16: the extension the dispatch looks at belongs to the last component
    of the path.  When that component is a name with a character other
    than a dot, followed by a dot and a suffix without dot, the extension
    is the dot and the lower-cased suffix, so that upper-case suffixes
    select the same branch.  When the name before the last dot consists of
    dots only (a hidden file such as ".pdf"), or the component has no dot
    at all, the path has no extension and [extract_text_from_file] returns
    the empty string without a warning. *)
Theorem file_ext_last_component (dir name e : str) :
  dir = [] \/ (exists d, dir = d ++ ["/"%char]) ->
  "/"%char ∉ name -> "/"%char ∉ e -> "."%char ∉ e ->
  (Exists (fun c => c <> "."%char) name ->
     file_ext (dir ++ name ++ "."%char :: e) = "."%char :: lower e)
  /\ (Forall (fun c => c = "."%char) name ->
        file_ext (dir ++ name ++ "."%char :: e) = []
        /\ forall w s,
             extract_text_from_file w (dir ++ name ++ "."%char :: e) s
             = ([], Ret [], s))
  /\ ("."%char ∉ name ->
        file_ext (dir ++ name) = []
        /\ forall w s, extract_text_from_file w (dir ++ name) s = ([], Ret [], s)).
Proof.
  intros Hdir Hname He Hdot.
  assert (forall p w s, file_ext p = [] ->
            extract_text_from_file w p s = ([], Ret [], s)) as Hsilent.
  { intros p w s Hp. rewrite extract_text_from_file_eq, decode_unsupported; [done|].
    rewrite Hp. unfold supported_extensions. fresh_char. }
  set (p := dir ++ name ++ "."%char :: e).
  assert (rfind "." p = Z.of_nat (length (dir ++ name))) as Hd.
  { unfold p. rewrite app_assoc. by apply rfind_last. }
  assert (rfind "/" p = (Z.of_nat (length dir) - 1)%Z) as Hs.
  { unfold p. apply rfind_sep; [done|]. rewrite elem_of_app, elem_of_cons.
    intros [?|[?|?]]; done. }
  assert (splitext p
          = if existsb (fun c => negb (bool_decide (c = "."%char))) name
            then (dir ++ name, "."%char :: e) else (p, [])) as Hsplit.
  { unfold splitext. rewrite Hd, Hs, length_app.
    destruct (Z.ltb_spec (Z.of_nat (length dir) - 1)
                (Z.of_nat (length dir + length name))) as [_|?]; [|lia].
    replace (Z.to_nat (Z.of_nat (length dir) - 1 + 1)) with (length dir) by lia.
    replace (Z.to_nat (Z.of_nat (length dir + length name)) - length dir)
      with (length name) by lia.
    replace (Z.to_nat (Z.of_nat (length dir + length name)))
      with (length (dir ++ name)) by (rewrite length_app; lia).
    unfold p. rewrite drop_app_length, take_app_length.
    rewrite (app_assoc dir name), take_app_length, drop_app_length. done. }
  split; [|split].
  - intros Hex. unfold file_ext. rewrite Hsplit.
    assert (existsb (fun c => negb (bool_decide (c = "."%char))) name = true) as ->.
    { apply existsb_exists. apply Exists_exists in Hex as (c & Hc & Hne).
      exists c. split; [by apply list_elem_of_In|].
      by rewrite bool_decide_eq_false_2. }
    reflexivity.
  - intros Hall.
    assert (file_ext p = []) as Hp.
    { unfold file_ext. rewrite Hsplit.
      assert (existsb (fun c => negb (bool_decide (c = "."%char))) name = false) as ->.
      { apply not_true_is_false. intros (c & Hc & Hne)%existsb_exists.
        rewrite Forall_forall in Hall. apply list_elem_of_In in Hc.
        rewrite (Hall c Hc) in Hne. done. }
      reflexivity. }
    split; [done|]. intros w s. by apply Hsilent.
  - intros Hnodot.
    assert (file_ext (dir ++ name) = []) as Hp.
    { unfold file_ext, splitext. rewrite (rfind_sep dir name Hdir Hname).
      assert (rfind "." (dir ++ name) <= Z.of_nat (length dir) - 1)%Z as Hle.
      { unfold rfind. rewrite rfind_from_app.
        rewrite (rfind_from_absent "." name) by done.
        pose proof (rfind_from_bound "." dir 0 (-1) ltac:(lia)). lia. }
      destruct (Z.ltb_spec (Z.of_nat (length dir) - 1) (rfind "." (dir ++ name)));
        [lia|done]. }
    split; [done|]. intros w s. by apply Hsilent.
Qed.

Lemma file_ext_last_component_witness :
  file_ext « "/home/me.d/notes.v2.PDF" » = « ".pdf" ».
Proof.
  apply (proj1 (file_ext_last_component « "/home/me.d/" » « "notes.v2" » « "PDF" »
                  ltac:(right; by exists « "/home/me.d" ») ltac:(fresh_char)
                  ltac:(fresh_char) ltac:(fresh_char))).
  apply Exists_cons_hd. discriminate.
Defined.

(** ** Making the quiz leaves the console alone *)

Lemma keeps_ret {A} (a : A) : keeps_stdin (ret a).
Proof. done. Qed.

Lemma keeps_raise {A} (e : exn) : keeps_stdin (@raise A e).
Proof. done. Qed.

Lemma keeps_lift {A} (r : outcome A) : keeps_stdin (lift r).
Proof. done. Qed.

Lemma keeps_randbelow (n : nat) : keeps_stdin (randbelow n).
Proof. done. Qed.

Lemma keeps_bind {A B} (c : M A) (k : A -> M B) :
  keeps_stdin c -> (forall a, keeps_stdin (k a)) -> keeps_stdin (bind c k).
Proof.
  intros Hc Hk s. unfold bind. specialize (Hc s).
  destruct (c s) as [[out [a|e]] s1]; simpl in *; [|done].
  specialize (Hk a s1). destruct (k a s1) as [[out' r] s2]. simpl in *. congruence.
Qed.

Lemma keeps_try_except {A} (body : M A) (handler : exn -> M A) :
  keeps_stdin body -> (forall e, keeps_stdin (handler e)) ->
  keeps_stdin (try_except body handler).
Proof.
  intros Hb Hh s. unfold try_except. specialize (Hb s).
  destruct (body s) as [[out [a|e]] s1]; simpl in *; [done|].
  specialize (Hh e s1). destruct (handler e s1) as [[out' r] s2]. simpl in *.
  congruence.
Qed.

Lemma keeps_mapM {A B} (f : A -> M B) (l : list A) :
  (forall a, keeps_stdin (f a)) -> keeps_stdin (mapM f l).
Proof.
  intros Hf. induction l as [|a l IH]; [done|]. cbn [mapM].
  apply keeps_bind; [done|]. intros b. apply keeps_bind; [done|]. done.
Qed.

Lemma keeps_random_sample {A} (population : list A) (k : nat) :
  keeps_stdin (random_sample population k).
Proof.
  unfold random_sample. destruct (_ <? _); [done|].
  revert population. induction k as [|k IH]; intros pool; [done|]. cbn [sample_from].
  repeat (apply keeps_bind; [done|intros ?]). done.
Qed.

Lemma keeps_generate_quiz_question (G : Globals) (entity material : str) :
  keeps_stdin (generate_quiz_question G entity material).
Proof.
  unfold generate_quiz_question. destruct (text_generator G) as [generate|]; [|done].
  apply keeps_try_except; [|done]. unfold quiz_body.
  apply keeps_bind; [done|intros gen].
  apply keeps_bind.
  { generalize (stripped_nonempty
                  (split « "," » (field « "Distractors:" » (parsed_lines gen) []))).
    generalize 3. intros fuel. induction fuel as [|fuel IH]; intros ds; [done|].
    cbn [pad_distractors]. destruct (_ <? _); [|done].
    apply keeps_bind; [|intros w; apply IH].
    unfold random_choice. destruct (other_words _ _); [done|].
    apply keeps_bind; [done|]. intros j. apply keeps_lift. }
  intros ds. apply keeps_bind.
  { unfold random_shuffle. generalize (length (field « "Answer:" » (parsed_lines gen) entity
                                                 :: take 3 ds) - 1).
    generalize (field « "Answer:" » (parsed_lines gen) entity :: take 3 ds).
    intros x i. revert x. induction i as [|i IH]; intros x; [done|].
    cbn [shuffle_from]. apply keeps_bind; [done|]. intros j. apply IH. }
  intros opts. repeat (apply keeps_bind; [done|intros ?]). done.
Qed.

Lemma keeps_make_quiz (G : Globals) (text_data : str) :
  keeps_stdin (make_quiz G text_data).
Proof.
  unfold make_quiz. apply keeps_bind.
  { unfold extract_entities. apply keeps_bind.
    - unfold ner_entities. by destruct (nlp G).
    - intros ents. apply keeps_bind; [|done]. unfold pad_entities.
      destruct (_ <? _); [|done].
      apply keeps_bind; [apply keeps_random_sample|done]. }
  intros ents. apply keeps_bind.
  { unfold build_knowledge_graph. generalize (@nil (str * list str)).
    generalize ents at 2. intros todo.
    induction todo as [|e todo IH]; intros kg; [done|].
    cbn [graph_from]. apply keeps_bind; [apply keeps_random_sample|].
    intros r. apply IH. }
  intros kg. apply keeps_bind; [|done].
  apply keeps_mapM. intros ent. apply keeps_generate_quiz_question.
Qed.

(** X17: a run that pastes a text and answers the first question with the
    exit sentinel reads exactly these three lines.  It shows the first
    question only, then the closing message and the whole knowledge graph,
    one entry per entity, and returns normally. *)
Theorem start_quiz_exit_at_first_question (G : Globals) (w : World) (s : state)
    (choice text_data line : str) (rest ents : list str) :
  stdin s = choice :: text_data :: line :: rest ->
  strip choice = « "1" » ->
  ner_yields G text_data ents ->
  matches_ignoring_case_and_space line sentinel ->
  exists entities kg qs s',
    make_quiz G text_data (State (rng s) (line :: rest))
    = ([], Ret (entities, kg, qs), s')
    /\ kg.*1 = entities
    /\ length qs = min 10 (length entities)
    /\ match qs with
       | [] =>
           start_quiz G w s
           = ([PrintBanner; PromptChoice; PromptPaste; PrintGenerating;
               PrintQuizStarted; PrintFinished; PrintGraphHeader],
              Ret tt, s')
           /\ stdin s' = line :: rest
       | q :: _ =>
           start_quiz G w s
           = ([PrintBanner; PromptChoice; PromptPaste; PrintGenerating;
               PrintQuizStarted]
                ++ round_output 1 q
                ++ PrintFinished :: PrintGraphHeader :: graph_output kg,
              Ret tt, State (rng s') rest)
       end.
Proof.
  intros Hin Hchoice Hner Hexit.
  set (s0 := State (rng s) (line :: rest)).
  destruct (make_quiz_returns G text_data ents s0 Hner)
    as (kg & qs & s1 & s2 & s' & combined & _ & _ & _ & Hrun & Hkeys).
  pose proof (keeps_make_quiz G text_data s0) as Hstdin.
  rewrite Hrun in Hstdin. simpl in Hstdin.
  exists (fromkeys combined), kg, qs, s'. split; [done|]. split; [done|].
  split; [by eapply make_quiz_length|].
  rewrite (start_quiz_paste G w s choice text_data (line :: rest) Hin Hchoice).
  fold s0. rewrite (quiz_session_eq G text_data s0 s' _ kg qs Hrun).
  destruct qs as [|q qs].
  - assert (kg = []) as ->.
    { apply make_quiz_length in Hrun. simpl in Hrun.
      destruct (fromkeys combined); [by destruct kg|simpl in Hrun; lia]. }
    done.
  - rewrite (quiz_loop_step 1 q qs line s' rest Hstdin).
    destruct sentinel_plain as [Hs1 Hs2].
    rewrite bool_decide_eq_true_2
      by (by apply (typed_answer_iff line sentinel Hs1 Hs2)).
    simpl. by rewrite <- app_assoc.
Qed.

Lemma start_quiz_exit_at_first_question_witness :
  exists entities kg qs s',
    make_quiz chatty_model « "Paris is the capital of France" »
      (State (fun i => i) [« " Exit" »; « "later" »])
    = ([], Ret (entities, kg, qs), s')
    /\ kg.*1 = entities
    /\ length qs = min 10 (length entities).
Proof.
  destruct (start_quiz_exit_at_first_question chatty_model no_library
              (State (fun i => i)
                 [« "1" »; « "Paris is the capital of France" »; « " Exit" »; « "later" »])
              « "1" » « "Paris is the capital of France" » « " Exit" » [« "later" »] []
              eq_refl eq_refl)
    as (entities & kg & qs & s' & Hrun & Hkeys & Hlen & _).
  - right. eexists. split; reflexivity.
  - exists « " " », « "Exit" », []. repeat split; by repeat constructor.
  - exists entities, kg, qs, s'. repeat split; assumption.
Defined.
